(** * Voice autocomplete scraper (app.py): variant generation and collection

    A shallow embedding of [generate_variants], [fetch_suggestions],
    [run_scraper] and the "Run Scraper" button handler of app.py, with the
    properties the specification states about them.

    Conventions.
    - A Python [str] is a [string]; its characters are the code points
      below 256.  An f-string is written with [+:+].
    - A Python [set] of strings is a [gset string]; [list(variants)] is an
      enumeration of the set whose order CPython fixes by the string hashes
      of the process, so it is a parameter ([set_listing]).
    - The provider reached by [requests.get] is a transition on an abstract
      [World]; an exception is a value of [result]. *)

From stdpp Require Import gmap strings list.
From Stdlib Require Import ZArith Ascii.

Local Open Scope string_scope.
#[local] Set Warnings "-register-all,-clear-no-such-hyp".

(** ** Python string operations used by the program *)

(** [s.split(sep)] for a separator of one character: every occurrence
    splits, empty pieces are kept, and the result is never empty. *)
Fixpoint str_split (sep : ascii) (s : string) : list string :=
  match s with
  | EmptyString => [EmptyString]
  | String c s' =>
      if Ascii.eqb c sep then EmptyString :: str_split sep s'
      else match str_split sep s' with
           | [] => [String c EmptyString]
           | w :: ws => String c w :: ws
           end
  end.

(** [sep.join(words)] *)
Fixpoint str_join (sep : string) (words : list string) : string :=
  match words with
  | [] => ""
  | w :: ws =>
      match ws with
      | [] => w
      | _ :: _ => w +:+ sep +:+ str_join sep ws
      end
  end.

(** [c.isspace()] on the code points below 256: TAB, LF, VT, FF, CR,
    FS, GS, RS, US, SPACE, NEL (0x85) and NBSP (0xA0). *)
Definition isspace (c : ascii) : bool :=
  let n := nat_of_ascii c in
  (((9 <=? n) && (n <=? 13)) || ((28 <=? n) && (n <=? 32))
   || (n =? 133) || (n =? 160))%nat.

Fixpoint lstrip (s : string) : string :=
  match s with
  | EmptyString => EmptyString
  | String c s' => if isspace c then lstrip s' else s
  end.

Fixpoint rstrip (s : string) : string :=
  match s with
  | EmptyString => EmptyString
  | String c s' =>
      match rstrip s' with
      | EmptyString => if isspace c then EmptyString else String c EmptyString
      | r => String c r
      end
  end.

(** [s.strip()] *)
Definition strip (s : string) : string := rstrip (lstrip s).

Definition SPACE : ascii := " "%char.
Definition TAB : ascii := ascii_of_nat 9.
Definition LF : ascii := ascii_of_nat 10.

(** ** Constants (app.py, lines 106-108) *)

Definition ALPHABET : list string :=
  ["a"; "b"; "c"; "d"; "e"; "f"; "g"; "h"; "i"; "j"; "k"; "l"; "m";
   "n"; "o"; "p"; "q"; "r"; "s"; "t"; "u"; "v"; "w"; "x"; "y"; "z"].

Definition QUESTION_WORDS : list string :=
  ["how"; "what"; "why"; "when"; "where"; "who"; "which"; "can";
   "should"; "will"; "do"; "does"; "is"].

Definition CONNECTORS : list string := [""].

(** ** generate_variants (app.py, lines 127-184) *)

(** [variants.add(x)] *)
Definition add (x : string) (variants : gset string) : gset string :=
  variants ∪ {[ x ]}.

(** [words[0]] and [words[1:]] *)
Definition first_word (words : list string) : string := hd "" words.
Definition rest_words (words : list string) : list string := tl words.

(** Body of [for letter in ALPHABET] (lines 134-155). *)
Definition letter_body (seed : string)
    (use_wildcards use_prefix use_infix use_suffix : bool)
    (variants : gset string) (letter : string) : gset string :=
  let variants :=
    if use_prefix then add (letter +:+ " " +:+ seed) variants else variants in
  let variants :=
    if use_suffix then add (seed +:+ " " +:+ letter) variants else variants in
  let variants :=
    if use_infix then
      let words := str_split SPACE seed in
      if (1 <? length words)%nat then
        add (first_word words +:+ " " +:+ letter +:+ " "
               +:+ str_join " " (rest_words words)) variants
      else variants
    else variants in
  if use_wildcards then
    let variants :=
      if use_suffix then
        let variants := add (seed +:+ "*" +:+ letter) variants in
        add (seed +:+ " " +:+ letter +:+ "*") variants
      else variants in
    let variants :=
      if use_prefix then
        let variants := add (letter +:+ "*" +:+ seed) variants in
        add (letter +:+ " *" +:+ seed) variants
      else variants in
    if use_infix then
      let words := str_split SPACE seed in
      if (1 <? length words)%nat then
        let variants :=
          add (first_word words +:+ "*" +:+ letter +:+ " "
                 +:+ str_join " " (rest_words words)) variants in
        add (first_word words +:+ " " +:+ letter +:+ "*"
               +:+ str_join " " (rest_words words)) variants
      else variants
    else variants
  else variants.

(** The [if use_wildcards:] block (lines 157-165). *)
Definition wildcard_block (seed : string)
    (use_prefix use_infix use_suffix : bool)
    (variants : gset string) : gset string :=
  let variants :=
    if use_prefix then add ("* " +:+ seed) variants else variants in
  let variants :=
    if use_suffix then add (seed +:+ " *") variants else variants in
  if use_infix then
    let words := str_split SPACE seed in
    if (1 <? length words)%nat then
      add (first_word words +:+ " * " +:+ str_join " " (rest_words words)) variants
    else variants
  else variants.

(** Body of [for conn in CONNECTORS] (lines 170-173). *)
Definition connector_body (seed qw : string) (use_prefix use_suffix : bool)
    (variants : gset string) (conn : string) : gset string :=
  let variants :=
    if use_prefix then add (qw +:+ conn +:+ seed) variants else variants in
  if use_suffix then add (seed +:+ conn +:+ qw) variants else variants.

(** Body of [for qw in QUESTION_WORDS] (lines 169-182). *)
Definition question_body (seed : string)
    (use_wildcards use_prefix use_suffix : bool)
    (variants : gset string) (qw : string) : gset string :=
  let variants :=
    foldl (connector_body seed qw use_prefix use_suffix) variants CONNECTORS in
  if use_wildcards then
    let variants :=
      if use_suffix then
        let variants := add (seed +:+ "*" +:+ qw) variants in
        add (seed +:+ " " +:+ qw +:+ "*") variants
      else variants in
    if use_prefix then
      let variants := add (qw +:+ "*" +:+ seed) variants in
      add (qw +:+ " *" +:+ seed) variants
    else variants
  else variants.

(** The set [variants] when [generate_variants] reaches its [return]. *)
Definition variant_set (seed : string)
    (use_letters use_wildcards use_questions
     use_prefix use_infix use_suffix : bool) : gset string :=
  let variants : gset string := {[ seed ]} in
  let variants :=
    if use_letters then
      foldl (letter_body seed use_wildcards use_prefix use_infix use_suffix)
            variants ALPHABET
    else variants in
  let variants :=
    if use_wildcards then
      wildcard_block seed use_prefix use_infix use_suffix variants
    else variants in
  if use_questions then
    foldl (question_body seed use_wildcards use_prefix use_suffix)
          variants QUESTION_WORDS
  else variants.

(** [list(s)] for a set [s]: each member once, in an order [list_of]
    fixes for the whole run. *)
Record set_listing := SetListing {
  list_of : gset string → list string;
  list_of_perm : ∀ X, list_of X ≡ₚ elements X
}.

(** The listing in the order of [elements]. *)
Definition elements_listing : set_listing :=
  {| list_of := elements; list_of_perm := λ X, reflexivity (elements X) |}.

Definition generate_variants (L : set_listing) (seed : string)
    (use_letters use_wildcards use_questions
     use_prefix use_infix use_suffix : bool) : list string :=
  list_of L (variant_set seed use_letters use_wildcards use_questions
               use_prefix use_infix use_suffix).

(** ** Python values and the provider *)

(** What [response.json()] can return. The keys of a [PyDict] are kept in
    insertion order and are distinct, as in a Python [dict]. *)
Inductive pyval :=
| PyNone
| PyBool (b : bool)
| PyInt (n : Z)
| PyFloat (bits : Z)
| PyStr (s : string)
| PyList (l : list pyval)
| PyDict (d : list (string * pyval)).

(** A Python [dict] literal with string keys, in the order written. *)
Definition pydict := list (string * pyval).

(** [requests.get(...)] followed by [response.json()]: either an exception
    (connection error, timeout, body that is not JSON) or the decoded value. *)
Inductive http_outcome :=
| Fails
| Json (data : pyval).

Inductive exn := TypeError.

Inductive result (A : Type) :=
| Ok (a : A)
| Raised (e : exn).
Arguments Ok {A} a.
Arguments Raised {A} e.

(** [len(v)]; [None] stands for the TypeError of an unsized value. *)
Definition py_len (v : pyval) : option nat :=
  match v with
  | PyStr s => Some (String.length s)
  | PyList l => Some (length l)
  | PyDict d => Some (length d)
  | PyNone | PyBool _ | PyInt _ | PyFloat _ => None
  end.

(** [v[1]]; [None] stands for the exception: TypeError when [v] is not
    subscriptable, IndexError out of range, KeyError on a JSON object
    (its keys are strings, never the integer 1). *)
Definition py_item1 (v : pyval) : option pyval :=
  match v with
  | PyList l => l !! 1%nat
  | PyStr s => (λ c, PyStr (String c EmptyString)) <$> String.get 1 s
  | PyDict _ => None
  | PyNone | PyBool _ | PyInt _ | PyFloat _ => None
  end.

(** The items [for x in v] goes through; [None] stands for the TypeError
    of a value that is not iterable. A [str] yields its characters, a
    [dict] its keys. *)
Definition py_iter (v : pyval) : option (list pyval) :=
  match v with
  | PyList l => Some l
  | PyStr s => Some ((λ c, PyStr (String c EmptyString)) <$> String.list_ascii_of_string s)
  | PyDict d => Some ((λ kv, PyStr kv.1) <$> d)
  | PyNone | PyBool _ | PyInt _ | PyFloat _ => None
  end.

(** One row of the result set: the [dict] literal of lines 216-221. *)
Definition row (seed variant : string) (suggestion : pyval) : pydict :=
  [("seed", PyStr seed);
   ("variant", PyStr variant);
   ("query_sent", PyStr variant);
   ("suggestion", suggestion)].

Section Collector.

(** The provider: state of the outside world, and what a GET of the
    suggest URL with [q], [hl], [gl] does to it. *)
Variable World : Type.
Variable http_get_json : string → string → string → World → http_outcome * World.

(** [str(v)] for a value that is not a [str]. *)
Variable str_other : pyval → string.

(** The order of [list(variants)] in this process. *)
Variable L : set_listing.

(** [f"{v}"] *)
Definition py_format (v : pyval) : string :=
  match v with
  | PyStr s => s
  | _ => str_other v
  end.

(** What the run leaves outside its locals: the world, the calls of
    [fetch_suggestions] made at line 210 (by seed index), and the
    queries [st.warning] was called for. *)
Record env := Env {
  world : World;
  fetch_log : list (nat * string);
  warnings : list string
}.

(** The locals [all_results] and [seen] of [run_scraper]. *)
Record collector := Collector {
  all_results : list pydict;
  seen : gset string
}.

(** *** fetch_suggestions (app.py, lines 110-125)

    Returns the value, whether the [except] branch warned, and the world. *)
Definition fetch_suggestions (query lang gl : string) (w : World)
  : pyval * bool * World :=
  match http_get_json query lang gl w with
  | (Fails, w') => (PyList [], true, w')
  | (Json data, w') =>
      match py_len data with
      | None => (PyList [], true, w')
      | Some n =>
          if (1 <? n)%nat then
            match py_item1 data with
            | Some v => (v, false, w')
            | None => (PyList [], true, w')
            end
          else (PyList [], false, w')
      end
  end.

(** *** run_scraper (app.py, lines 186-232) *)

(** Body of [for suggestion in suggestions] (lines 213-221). *)
Definition suggestion_body (seed variant : string)
    (acc : collector) (suggestion : pyval) : collector :=
  let key := seed +:+ "|||" +:+ py_format suggestion in
  if decide (key ∈ seen acc) then acc
  else {| all_results := all_results acc ++ [row seed variant suggestion];
          seen := add key (seen acc) |}.

(** [for variant in variants] with its counter (lines 203-227). The
    status text, the progress bar and the sleep change nothing here. *)
Fixpoint variant_loop (seed_idx : nat) (seed lang gl : string)
    (max_per_variant : Z) (variants : list string) (count : Z)
    (acc : collector) (e : env) : result collector * env :=
  match variants with
  | [] => (Ok acc, e)
  | variant :: variants' =>
      if (max_per_variant <=? count)%Z then (Ok acc, e)
      else
        let '(suggestions, warned, w') :=
          fetch_suggestions variant lang gl (world e) in
        let e' := {| world := w';
                     fetch_log := fetch_log e ++ [(seed_idx, variant)];
                     warnings := if warned : bool then warnings e ++ [variant]
                                 else warnings e |} in
        match py_iter suggestions with
        | None => (Raised TypeError, e')
        | Some items =>
            let acc' := foldl (suggestion_body seed variant) acc items in
            variant_loop seed_idx seed lang gl max_per_variant variants'
              (count + 1)%Z acc' e'
        end
  end.

(** [for seed_idx, seed in enumerate(seeds_list)] (lines 197-227). *)
Fixpoint seed_loop (seed_idx : nat) (seeds_list : list string)
    (lang gl : string) (max_per_variant : Z)
    (use_letters use_wildcards use_questions
     use_prefix use_infix use_suffix : bool)
    (acc : collector) (e : env) : result collector * env :=
  match seeds_list with
  | [] => (Ok acc, e)
  | seed :: seeds' =>
      let variants :=
        generate_variants L seed use_letters use_wildcards use_questions
          use_prefix use_infix use_suffix in
      match variant_loop seed_idx seed lang gl max_per_variant variants 0%Z acc e with
      | (Ok acc', e') =>
          seed_loop (S seed_idx) seeds' lang gl max_per_variant
            use_letters use_wildcards use_questions
            use_prefix use_infix use_suffix acc' e'
      | (Raised x, e') => (Raised x, e')
      end
  end.

(** [pd.DataFrame(all_results)] is kept as the list of its rows. *)
Definition run_scraper (seeds_list : list string) (lang gl : string)
    (max_per_variant : Z)
    (use_letters use_wildcards use_questions
     use_prefix use_infix use_suffix : bool) (w : World)
  : result (list pydict) * env :=
  let acc := {| all_results := []; seen := ∅ |} in
  let e := {| world := w; fetch_log := []; warnings := [] |} in
  match seed_loop 0 seeds_list lang gl max_per_variant
          use_letters use_wildcards use_questions
          use_prefix use_infix use_suffix acc e with
  | (Ok acc', e') => (Ok (all_results acc'), e')
  | (Raised x, e') => (Raised x, e')
  end.

(** *** The "Run Scraper" button (app.py, lines 235-251) *)

(** [[s.strip() for s in seeds_input.split('\n') if s.strip()]] *)
Definition parse_seeds (seeds_input : string) : list string :=
  strip <$> filter (λ s, strip s ≠ "") (str_split LF seeds_input).

Inductive click :=
| Rejected (message : string)
| Ran (r : result (list pydict)).

Definition run_button (seeds_input lang gl : string) (max_per_variant : Z)
    (use_letters use_wildcards use_questions
     use_prefix use_infix use_suffix : bool) (w : World) : click * env :=
  let seeds_list := parse_seeds seeds_input in
  match seeds_list with
  | [] => (Rejected "Please enter at least one seed!",
           {| world := w; fetch_log := []; warnings := [] |})
  | _ :: _ =>
      let '(r, e) :=
        run_scraper seeds_list lang gl max_per_variant
          use_letters use_wildcards use_questions
          use_prefix use_infix use_suffix w in
      (Ran r, e)
  end.

End Collector.

Arguments Env {World} _ _ _.
Arguments fetch_suggestions {World} _ _ _ _ _.
Arguments variant_loop {World} _ _ _ _ _ _ _ _ _ _ _.
Arguments seed_loop {World} _ _ _ _ _ _ _ _ _ _ _ _ _ _ _ _.
Arguments run_scraper {World} _ _ _ _ _ _ _ _ _ _ _ _ _ _.
Arguments run_button {World} _ _ _ _ _ _ _ _ _ _ _ _ _ _.
Arguments world {World} _.
Arguments fetch_log {World} _.
Arguments warnings {World} _.

(** ** Auxiliary notions for the statements *)

(** The characters of a string, in order. *)
Definition chars (s : string) : list ascii := String.list_ascii_of_string s.

(** A line that [strip] empties: every character is whitespace. *)
Definition blank (s : string) : Prop := Forall (λ c, isspace c = true) (chars s).

(** [d[k]] for a dict literal. *)
Fixpoint dict_get (k : string) (d : pydict) : option pyval :=
  match d with
  | [] => None
  | (k', v) :: d' => if decide (k' = k) then Some v else dict_get k d'
  end.

(** Number of [fetch_suggestions] calls logged for the seed at index [i]. *)
Definition calls_for (i : nat) (log : list (nat * string)) : nat :=
  length (filter (λ c, c.1 = i) log).

(** Every value [fetch_suggestions] hands to the [for] loop of line 212
    can be iterated. *)
Definition iterable_replies {World : Type}
    (http_get_json : string → string → string → World → http_outcome * World)
  : Prop :=
  ∀ query lang gl w,
    is_Some (py_iter (fetch_suggestions http_get_json query lang gl w).1.1).

(** * Properties *)

(** ** Strings *)

Lemma length_append (s t : string) :
  String.length (s +:+ t) = (String.length s + String.length t)%nat.
Proof. induction s as [|c s IH]; simpl; [done|]. by rewrite IH. Qed.

Lemma chars_append (s t : string) : chars (s +:+ t) = (chars s ++ chars t)%list.
Proof. induction s as [|c s IH]; simpl; [done|]. unfold chars in *. simpl. by rewrite IH. Qed.

Lemma str_split_nonempty sep s : str_split sep s ≠ [].
Proof.
  destruct s as [|c s]; simpl; [done|].
  destruct (Ascii.eqb c sep); [done|]. by destruct (str_split sep s).
Qed.

(** A string without the separator is the single piece of its split. *)
Lemma str_split_single sep s : sep ∉ chars s → str_split sep s = [s].
Proof.
  induction s as [|c s IH]; intros Hs; simpl; [done|].
  unfold chars in *; simpl in Hs.
  apply not_elem_of_cons in Hs as [Hc Hs].
  destruct (Ascii.eqb_spec c sep) as [->|_]; [done|].
  by rewrite IH.
Qed.

(** The first separator ends the first piece. *)
Lemma str_split_first sep first rest :
  sep ∉ chars first →
  str_split sep (first +:+ String sep rest) = first :: str_split sep rest.
Proof.
  induction first as [|c s IH]; intros Hs; simpl.
  - by rewrite Ascii.eqb_refl.
  - unfold chars in *; simpl in Hs.
    apply not_elem_of_cons in Hs as [Hc Hs].
    destruct (Ascii.eqb_spec c sep) as [->|_]; [done|].
    by rewrite IH.
Qed.

(** Joining the pieces with the separator gives the string back. *)
Lemma str_join_split sep s : str_join (String sep "") (str_split sep s) = s.
Proof.
  induction s as [|c s IH]; simpl; [done|].
  destruct (Ascii.eqb_spec c sep) as [->|_].
  - pose proof (str_split_nonempty sep s) as Hne.
    destruct (str_split sep s) as [|w ws]; [done|].
    simpl in *. by rewrite IH.
  - destruct (str_split sep s) as [|w ws] eqn:E.
    + by destruct (str_split_nonempty sep s).
    + simpl in *. destruct ws; simpl in *; by rewrite <- IH.
Qed.

(** The pieces of a split are made of characters of the string. *)
Lemma str_split_chars sep s piece c :
  piece ∈ str_split sep s → c ∈ chars piece → c ∈ chars s.
Proof.
  revert piece. induction s as [|a s IH]; intros piece; simpl.
  - intros ->%list_elem_of_singleton. done.
  - unfold chars in *; simpl.
    destruct (Ascii.eqb a sep).
    + intros [->|Hp]%elem_of_cons Hc; [by apply elem_of_nil in Hc|].
      right. by eapply IH.
    + destruct (str_split sep s) as [|w ws] eqn:E.
      * intros ->%list_elem_of_singleton Hc. simpl in Hc.
        apply elem_of_cons in Hc as [->|Hc]; [left|by apply elem_of_nil in Hc].
      * intros [->|Hp]%elem_of_cons Hc.
        -- simpl in Hc. apply elem_of_cons in Hc as [->|Hc]; [left|].
           right. apply (IH w); [left|done].
        -- right. apply (IH piece); [by right|done].
Qed.

Lemma lstrip_empty_iff s : lstrip s = "" ↔ blank s.
Proof.
  unfold blank, chars. induction s as [|c s IH]; simpl.
  - split; [constructor|done].
  - destruct (isspace c) eqn:Hc.
    + rewrite IH. split; [by constructor|]. by inversion 1.
    + split; [done|]. inversion 1; congruence.
Qed.

Lemma rstrip_empty_iff s : rstrip s = "" ↔ blank s.
Proof.
  unfold blank, chars. induction s as [|c s IH]; simpl.
  - split; [constructor|done].
  - destruct (rstrip s) as [|a r] eqn:E.
    + destruct (isspace c) eqn:Hc.
      * split; [intros _; constructor; [done|by apply IH]|done].
      * split; [done|]. inversion 1; congruence.
    + split; [done|]. inversion 1 as [|? ? _ Hs]. by apply IH in Hs.
Qed.

Lemma blank_lstrip s : blank (lstrip s) ↔ blank s.
Proof.
  unfold blank, chars. induction s as [|c s IH]; simpl; [done|].
  destruct (isspace c) eqn:Hc; [|done].
  rewrite IH. split; [by constructor|]. by inversion 1.
Qed.

(** [strip] empties exactly the strings of whitespace. *)
Lemma strip_empty_iff s : strip s = "" ↔ blank s.
Proof. unfold strip. by rewrite rstrip_empty_iff, blank_lstrip. Qed.

Lemma rstrip_idem s : rstrip (rstrip s) = rstrip s.
Proof.
  induction s as [|c s IH]; simpl; [done|].
  destruct (rstrip s) as [|a r] eqn:E.
  - destruct (isspace c) eqn:Hc; simpl; [done|]. by rewrite Hc.
  - simpl in *. by rewrite IH.
Qed.

(** No whitespace at the front. *)
Definition no_lead (s : string) : Prop :=
  match s with
  | EmptyString => True
  | String c _ => isspace c = false
  end.

Lemma no_lead_lstrip s : no_lead (lstrip s).
Proof.
  induction s as [|c s IH]; simpl; [done|].
  by destruct (isspace c) eqn:Hc.
Qed.

Lemma lstrip_no_lead s : no_lead s → lstrip s = s.
Proof. destruct s as [|c s]; simpl; [done|]. by intros ->. Qed.

Lemma no_lead_rstrip s : no_lead s → no_lead (rstrip s).
Proof.
  destruct s as [|c s]; simpl; [done|]. intros Hc.
  destruct (rstrip s); [by rewrite Hc|done].
Qed.

(** A stripped string has nothing left to strip. *)
Lemma strip_idem s : strip (strip s) = strip s.
Proof.
  unfold strip.
  rewrite (lstrip_no_lead (rstrip (lstrip s))).
  - apply rstrip_idem.
  - apply no_lead_rstrip, no_lead_lstrip.
Qed.

(** ** The variant generator *)

Lemma add_elem x y (X : gset string) : x ∈ add y X ↔ x ∈ X ∨ x = y.
Proof. unfold add. set_solver. Qed.

Lemma add_subseteq y (X : gset string) : X ⊆ add y X.
Proof. unfold add. set_solver. Qed.

Ltac grow :=
  repeat match goal with
         | |- context [if ?b then _ else _] => destruct b
         end;
  repeat (etrans; [|apply add_subseteq]); done.

Lemma letter_body_grows seed w p i s X letter :
  X ⊆ letter_body seed w p i s X letter.
Proof. unfold letter_body. cbv zeta. grow. Qed.

Lemma wildcard_block_grows seed p i s X :
  X ⊆ wildcard_block seed p i s X.
Proof. unfold wildcard_block. cbv zeta. grow. Qed.

Lemma question_body_grows seed w p s X qw :
  X ⊆ question_body seed w p s X qw.
Proof. unfold question_body, connector_body. cbn [foldl CONNECTORS]. cbv zeta. grow. Qed.

(** A loop whose body only adds keeps what the set had. *)
Lemma foldl_grows {A} (f : gset string → A → gset string) (l : list A) X :
  (∀ Y a, Y ⊆ f Y a) → X ⊆ foldl f X l.
Proof.
  intros Hf. revert X. induction l as [|a l IH]; intros X; simpl; [done|].
  etrans; [apply (Hf X a)|apply IH].
Qed.

(** What one iteration adds whatever the set was, the loop has added. *)
Lemma foldl_adds {A} (f : gset string → A → gset string) (l : list A) X a x :
  (∀ Y b, Y ⊆ f Y b) → a ∈ l → (∀ Y, x ∈ f Y a) → x ∈ foldl f X l.
Proof.
  intros Hf Ha Hx. revert X. induction l as [|b l IH]; intros X; simpl.
  - by apply elem_of_nil in Ha.
  - apply elem_of_cons in Ha as [->|Ha]; [|by apply IH].
    by apply (foldl_grows f l (f X b) Hf).
Qed.

(** The three blocks of [generate_variants], each as a function of the
    set it starts from. *)
Definition letters_block (seed : string) (l w p i s : bool) (X : gset string) :=
  if l then foldl (letter_body seed w p i s) X ALPHABET else X.
Definition wildcards_block (seed : string) (w p i s : bool) (X : gset string) :=
  if w then wildcard_block seed p i s X else X.
Definition questions_block (seed : string) (q w p s : bool) (X : gset string) :=
  if q then foldl (question_body seed w p s) X QUESTION_WORDS else X.

Lemma variant_set_blocks seed l w q p i s :
  variant_set seed l w q p i s =
  questions_block seed q w p s
    (wildcards_block seed w p i s (letters_block seed l w p i s {[ seed ]})).
Proof. reflexivity. Qed.

Lemma letters_block_grows seed l w p i s X : X ⊆ letters_block seed l w p i s X.
Proof.
  unfold letters_block. destruct l; [|done].
  apply foldl_grows, letter_body_grows.
Qed.

Lemma wildcards_block_grows seed w p i s X : X ⊆ wildcards_block seed w p i s X.
Proof. unfold wildcards_block. destruct w; [|done]. apply wildcard_block_grows. Qed.

Lemma questions_block_grows seed q w p s X : X ⊆ questions_block seed q w p s X.
Proof.
  unfold questions_block. destruct q; [|done].
  apply foldl_grows, question_body_grows.
Qed.

Lemma variant_set_has_seed seed l w q p i s :
  seed ∈ variant_set seed l w q p i s.
Proof.
  rewrite variant_set_blocks.
  apply questions_block_grows, wildcards_block_grows, letters_block_grows.
  set_solver.
Qed.

(** Any listing of a set has the members of the set, each once. *)
Lemma list_of_elem (L : set_listing) (X : gset string) x :
  x ∈ list_of L X ↔ x ∈ X.
Proof. by rewrite (list_of_perm L X), elem_of_elements. Qed.

Lemma list_of_length (L : set_listing) (X : gset string) :
  length (list_of L X) = size X.
Proof. by rewrite (list_of_perm L X). Qed.

Lemma list_of_NoDup (L : set_listing) (X : gset string) : NoDup (list_of L X).
Proof. rewrite (list_of_perm L X). apply NoDup_elements. Qed.

(** C9. For every seed and every combination of the six option flags,
    the unmodified seed is a member of the variant set, hence of the list
    [generate_variants] returns, whatever order that list has. *)
Theorem seed_always_included (L : set_listing) (seed : string)
    (use_letters use_wildcards use_questions
     use_prefix use_infix use_suffix : bool) :
  seed ∈ variant_set seed use_letters use_wildcards use_questions
           use_prefix use_infix use_suffix
  ∧ seed ∈ generate_variants L seed use_letters use_wildcards use_questions
             use_prefix use_infix use_suffix.
Proof.
  split; [apply variant_set_has_seed|].
  unfold generate_variants. apply list_of_elem, variant_set_has_seed.
Qed.

(** Membership in a set built by a run of [add]s. *)
Ltac in_adds :=
  repeat match goal with
         | |- context [if ?b then _ else _] => destruct b
         end;
  repeat first [ by (apply add_elem; right) | apply add_elem; left ].

Lemma question_prefix_in seed l w i s qw :
  qw ∈ QUESTION_WORDS → qw +:+ seed ∈ variant_set seed l w true true i s.
Proof.
  intros Hqw. rewrite variant_set_blocks. unfold questions_block.
  apply (foldl_adds _ _ _ qw); [apply question_body_grows|done|].
  intros Y. unfold question_body, connector_body.
  cbn [foldl CONNECTORS]. cbv zeta. in_adds.
Qed.

Lemma question_suffix_in seed l w p i qw :
  qw ∈ QUESTION_WORDS → seed +:+ qw ∈ variant_set seed l w true p i true.
Proof.
  intros Hqw. rewrite variant_set_blocks. unfold questions_block.
  apply (foldl_adds _ _ _ qw); [apply question_body_grows|done|].
  intros Y. unfold question_body, connector_body.
  cbn [foldl CONNECTORS]. cbv zeta. in_adds.
Qed.

Lemma letter_prefix_in seed w q i s letter :
  letter ∈ ALPHABET →
  letter +:+ " " +:+ seed ∈ variant_set seed true w q true i s.
Proof.
  intros Hl. rewrite variant_set_blocks.
  apply questions_block_grows, wildcards_block_grows. unfold letters_block.
  apply (foldl_adds _ _ _ letter); [apply letter_body_grows|done|].
  intros Y. unfold letter_body. cbv zeta. in_adds.
Qed.

Lemma letter_suffix_in seed w q p i letter :
  letter ∈ ALPHABET →
  seed +:+ " " +:+ letter ∈ variant_set seed true w q p i true.
Proof.
  intros Hl. rewrite variant_set_blocks.
  apply questions_block_grows, wildcards_block_grows. unfold letters_block.
  apply (foldl_adds _ _ _ letter); [apply letter_body_grows|done|].
  intros Y. unfold letter_body. cbv zeta. in_adds.
Qed.

Lemma wildcard_prefix_in seed l q i s :
  "* " +:+ seed ∈ variant_set seed l true q true i s.
Proof.
  rewrite variant_set_blocks.
  apply questions_block_grows. unfold wildcards_block, wildcard_block.
  cbv zeta. in_adds.
Qed.

Lemma wildcard_suffix_in seed l q p i :
  seed +:+ " *" ∈ variant_set seed l true q p i true.
Proof.
  rewrite variant_set_blocks.
  apply questions_block_grows. unfold wildcards_block, wildcard_block.
  cbv zeta. in_adds.
Qed.

(** On a seed without a space character the infix flag changes nothing. *)
Lemma infix_irrelevant seed l w q p s :
  SPACE ∉ chars seed →
  variant_set seed l w q p true s = variant_set seed l w q p false s.
Proof.
  intros Hs.
  assert ((1 <? length (str_split SPACE seed))%nat = false) as Hlen
    by by rewrite (str_split_single _ _ Hs).
  unfold variant_set, letter_body, wildcard_block. cbv zeta.
  rewrite !Hlen. by destruct l, w, q, p, s.
Qed.

Lemma insert_differs first rest :
  first +:+ " " +:+ rest ≠ first +:+ " * " +:+ rest.
Proof.
  intros H%(inj (String.append first)). injection H as H.
  apply (f_equal String.length) in H. simpl in H. lia.
Qed.

(** ** The variant set as a list of templates

    The strings each block of [generate_variants] adds, written as lists:
    what one letter adds, what the wildcard block adds, what one question
    word adds. *)

(** [words[0]] and [' '.join(words[1:])] when [len(words) > 1]. *)
Definition infix_parts (seed : string) : option (string * string) :=
  let words := str_split SPACE seed in
  if (1 <? length words)%nat
  then Some (first_word words, str_join " " (rest_words words))
  else None.

(** What [letter_body] adds for one letter, in the order of the code. *)
Definition letter_forms (seed : string) (w p i s : bool) (letter : string)
  : list string :=
  ((if p then [letter +:+ " " +:+ seed] else [])
   ++ (if s then [seed +:+ " " +:+ letter] else [])
   ++ (if i then match infix_parts seed with
                 | Some (first, rest) => [first +:+ " " +:+ letter +:+ " " +:+ rest]
                 | None => []
                 end else [])
   ++ (if w then
         (if s then [seed +:+ "*" +:+ letter; seed +:+ " " +:+ letter +:+ "*"] else [])
         ++ (if p then [letter +:+ "*" +:+ seed; letter +:+ " *" +:+ seed] else [])
         ++ (if i then match infix_parts seed with
                       | Some (first, rest) =>
                           [first +:+ "*" +:+ letter +:+ " " +:+ rest;
                            first +:+ " " +:+ letter +:+ "*" +:+ rest]
                       | None => []
                       end else [])
       else []))%list.

(** What [wildcard_block] adds. *)
Definition wildcard_forms (seed : string) (p i s : bool) : list string :=
  ((if p then ["* " +:+ seed] else [])
   ++ (if s then [seed +:+ " *"] else [])
   ++ (if i then match infix_parts seed with
                 | Some (first, rest) => [first +:+ " * " +:+ rest]
                 | None => []
                 end else []))%list.

(** What [question_body] adds for one question word. *)
Definition question_forms (seed : string) (w p s : bool) (qw : string)
  : list string :=
  ((if p then [qw +:+ seed] else [])
   ++ (if s then [seed +:+ qw] else [])
   ++ (if w then
         (if s then [seed +:+ "*" +:+ qw; seed +:+ " " +:+ qw +:+ "*"] else [])
         ++ (if p then [qw +:+ "*" +:+ seed; qw +:+ " *" +:+ seed] else [])
       else []))%list.

(** The seed, then everything the three blocks add. *)
Definition variant_forms (seed : string) (l w q p i s : bool) : list string :=
  (seed
   :: (if l then ALPHABET ≫= letter_forms seed w p i s else [])
   ++ (if w then wildcard_forms seed p i s else [])
   ++ (if q then QUESTION_WORDS ≫= question_forms seed w p s else []))%list.

Lemma letter_body_forms seed w p i s X letter :
  letter_body seed w p i s X letter
  = X ∪ list_to_set (letter_forms seed w p i s letter).
Proof.
  unfold letter_body, letter_forms, infix_parts, add. cbv zeta.
  destruct (1 <? length (str_split SPACE seed))%nat, w, p, i, s;
    cbn [app list_to_set]; set_solver.
Qed.

Lemma wildcard_block_forms seed p i s X :
  wildcard_block seed p i s X = X ∪ list_to_set (wildcard_forms seed p i s).
Proof.
  unfold wildcard_block, wildcard_forms, infix_parts, add. cbv zeta.
  destruct (1 <? length (str_split SPACE seed))%nat, p, i, s;
    cbn [app list_to_set]; set_solver.
Qed.

Lemma question_body_forms seed w p s X qw :
  question_body seed w p s X qw
  = X ∪ list_to_set (question_forms seed w p s qw).
Proof.
  unfold question_body, connector_body, question_forms, add.
  cbn [foldl CONNECTORS]. cbv zeta.
  change ("" +:+ seed) with seed. change ("" +:+ qw) with qw.
  destruct w, p, s; cbn [app list_to_set]; set_solver.
Qed.

(** A loop whose body adds the strings [g a] has added them all. *)
Lemma foldl_forms {A} (f : gset string → A → gset string)
    (g : A → list string) (l : list A) X :
  (∀ Y a, f Y a = Y ∪ list_to_set (g a)) →
  foldl f X l = X ∪ list_to_set (l ≫= g).
Proof.
  intros Hf. revert X. induction l as [|a l IH]; intros X; simpl.
  - by rewrite (right_id_L ∅ (∪)).
  - by rewrite IH, Hf, list_to_set_app_L, (assoc_L (∪)).
Qed.

(** The variant set is the set of the strings of [variant_forms]. *)
Lemma variant_set_forms seed l w q p i s :
  variant_set seed l w q p i s = list_to_set (variant_forms seed l w q p i s).
Proof.
  unfold variant_set, variant_forms. cbv zeta.
  rewrite (foldl_forms (question_body seed w p s) (question_forms seed w p s))
    by apply question_body_forms.
  rewrite wildcard_block_forms.
  rewrite (foldl_forms (letter_body seed w p i s) (letter_forms seed w p i s))
    by apply letter_body_forms.
  rewrite list_to_set_cons, !list_to_set_app_L.
  generalize (ALPHABET ≫= letter_forms seed w p i s).
  generalize (QUESTION_WORDS ≫= question_forms seed w p s).
  generalize (wildcard_forms seed p i s).
  intros W Q A.
  destruct l, w, q; rewrite ?list_to_set_nil; set_solver.
Qed.

(** Decide a closed decidable statement by evaluation. *)
Ltac by_eval := refine (bool_decide_unpack _ _); vm_compute; exact I.

(** C4. With questions enabled, each of the 13 question words is
    concatenated directly in front of the seed (prefix enabled) and directly
    after it (suffix enabled), with no separator. For the seed "ok google"
    with questions and suffix enabled and prefix disabled, the 13 strings
    "ok googlehow", "ok googlewhat", ... are all generated, the forms with a
    space are not, and with no further option the set is the seed and these
    13 strings. *)
Theorem question_words_concatenated :
  (∀ seed l w p i s qw, qw ∈ QUESTION_WORDS →
     (p = true → qw +:+ seed ∈ variant_set seed l w true p i s)
     ∧ (s = true → seed +:+ qw ∈ variant_set seed l w true p i s))
  ∧ length QUESTION_WORDS = 13%nat
  ∧ (∀ l w i qw, qw ∈ QUESTION_WORDS →
       "ok google" +:+ qw ∈ variant_set "ok google" l w true false i true
       ∧ "ok google " +:+ qw ∉ variant_set "ok google" l w true false i true)
  ∧ variant_set "ok google" false false true false false true
    = list_to_set ("ok google" :: ((λ qw, "ok google" +:+ qw) <$> QUESTION_WORDS)).
Proof.
  split; [|split; [done|split]].
  - intros seed l w p i s qw Hqw. split; intros ->.
    + by apply question_prefix_in.
    + by apply question_suffix_in.
  - intros l w i qw Hqw. split; [by apply question_suffix_in|].
    rewrite variant_set_forms, elem_of_list_to_set.
    revert qw Hqw. apply Forall_forall.
    destruct l, w, i; by_eval.
  - vm_compute. reflexivity.
Qed.

Lemma question_words_concatenated_witness :
  "how" ∈ QUESTION_WORDS
  ∧ "how" +:+ "hey google"
    ∈ variant_set "hey google" false false true true false false.
Proof.
  assert ("how" ∈ QUESTION_WORDS) as Hqw by by_eval.
  split; [exact Hqw|].
  exact (proj1 (proj1 question_words_concatenated
                  "hey google" false false true false false "how" Hqw) eq_refl).
Defined.

(** C5. A seed is a single word for [generate_variants] when it has no
    space character: for such a seed the infix option adds nothing, the set
    is the one generated with infix off, and no error is raised. A seed
    with a space is its first word, a space and the rest: with only
    wildcards and infix enabled the set has exactly two members, the seed
    and "firstWord * rest". *)
Theorem infix_guard :
  (∀ seed l w q p s,
     SPACE ∉ chars seed →
     variant_set seed l w q p true s = variant_set seed l w q p false s)
  ∧ (∀ first rest,
       SPACE ∉ chars first →
       variant_set (first +:+ " " +:+ rest) false true false false true false
       = {[ first +:+ " " +:+ rest; first +:+ " * " +:+ rest ]}
       ∧ size (variant_set (first +:+ " " +:+ rest)
                 false true false false true false) = 2%nat).
Proof.
  split; [intros; by apply infix_irrelevant|].
  intros first rest Hf.
  assert (variant_set (first +:+ " " +:+ rest) false true false false true false
          = {[ first +:+ " " +:+ rest; first +:+ " * " +:+ rest ]}) as Heq.
  { unfold variant_set, wildcard_block. cbv zeta.
    change (first +:+ " " +:+ rest) with (first +:+ String SPACE rest).
    rewrite (str_split_first SPACE first rest Hf).
    pose proof (str_split_nonempty SPACE rest) as Hne.
    destruct (str_split SPACE rest) as [|w ws] eqn:E; [done|].
    cbn [length Nat.ltb Nat.leb first_word rest_words hd tl].
    rewrite <- E. change " " with (String SPACE "").
    by rewrite str_join_split. }
  split; [done|]. rewrite Heq.
  rewrite size_union; [by rewrite !size_singleton|].
  apply disjoint_singleton_l. rewrite elem_of_singleton.
  apply insert_differs.
Qed.

Lemma infix_guard_witness :
  ((SPACE ∉ chars "google")
   ∧ variant_set "google" true true true true true true
     = variant_set "google" true true true true false true)
  ∧ ((SPACE ∉ chars "hey")
     ∧ variant_set "hey google now" false true false false true false
       = {[ "hey google now"; "hey * google now" ]}).
Proof.
  split; (split; [by_eval|]).
  - apply (proj1 infix_guard "google" true true true true true). by_eval.
  - apply (proj2 infix_guard "hey" "google now"). by_eval.
Defined.

(** C10. [generate_variants] finds the words of a seed by splitting on
    the space character alone. A seed with no space character, whatever
    other whitespace separates its words (a tab, say), splits into one
    token, so the infix option adds no variant to it; the prefix and suffix
    variants of letters, wildcards and question words are generated all the
    same. *)
Theorem words_split_on_space_only (seed : string) :
  SPACE ∉ chars seed →
  str_split SPACE seed = [seed]
  ∧ (∀ l w q p s,
       variant_set seed l w q p true s = variant_set seed l w q p false s)
  ∧ (∀ w q p s letter, letter ∈ ALPHABET →
       (p = true → letter +:+ " " +:+ seed ∈ variant_set seed true w q p true s)
       ∧ (s = true → seed +:+ " " +:+ letter ∈ variant_set seed true w q p true s))
  ∧ (∀ l q p s,
       (p = true → "* " +:+ seed ∈ variant_set seed l true q p true s)
       ∧ (s = true → seed +:+ " *" ∈ variant_set seed l true q p true s))
  ∧ (∀ l w p s qw, qw ∈ QUESTION_WORDS →
       (p = true → qw +:+ seed ∈ variant_set seed l w true p true s)
       ∧ (s = true → seed +:+ qw ∈ variant_set seed l w true p true s)).
Proof.
  intros Hs. split; [by apply str_split_single|].
  split; [intros; by apply infix_irrelevant|].
  split; [|split].
  - intros w q p s letter Hl. split; intros ->.
    + by apply letter_prefix_in.
    + by apply letter_suffix_in.
  - intros l q p s. split; intros ->.
    + apply wildcard_prefix_in.
    + apply wildcard_suffix_in.
  - intros l w p s qw Hqw. split; intros ->.
    + by apply question_prefix_in.
    + by apply question_suffix_in.
Qed.

(** "hey", a tab, "google". *)
Definition hey_tab_google : string := "hey" +:+ String TAB "google".

(** The words of a seed as the specification counts them (section 3: one
    or more whitespace-separated words): the maximal runs of characters
    that are not whitespace, as [str.split()] without argument gives them. *)
Fixpoint whitespace_words (s : string) : list string :=
  match s with
  | EmptyString => []
  | String c s' =>
      if isspace c then whitespace_words s'
      else
        match s' with
        | EmptyString => [String c EmptyString]
        | String c' _ =>
            if isspace c' then String c EmptyString :: whitespace_words s'
            else match whitespace_words s' with
                 | w :: ws => String c w :: ws
                 | [] => [String c EmptyString]
                 end
        end
  end.

(** C5 as stated fails on the code. The seed "hey<TAB>google" has two
    whitespace-separated words, and the handler passes it on unchanged
    ([strip] trims the ends only); with only wildcards and infix enabled
    the generated set is the seed alone: no variant with "* " inserted
    after the first word is produced. *)
Lemma tab_separated_seed_gets_no_infix_variant :
  whitespace_words hey_tab_google = ["hey"; "google"]
  ∧ parse_seeds hey_tab_google = [hey_tab_google]
  ∧ variant_set hey_tab_google false true false false true false
    = {[ hey_tab_google ]}
  ∧ size (variant_set hey_tab_google false true false false true false) = 1%nat
  ∧ ("hey * google" ∉ variant_set hey_tab_google false true false false true false)
  ∧ ("hey" +:+ String TAB "* google"
     ∉ variant_set hey_tab_google false true false false true false)
  ∧ ("hey * " +:+ String TAB "google"
     ∉ variant_set hey_tab_google false true false false true false).
Proof.
  split; [vm_compute; reflexivity|].
  split; [vm_compute; reflexivity|].
  split; [vm_compute; reflexivity|].
  split; [vm_compute; reflexivity|].
  split; [by_eval|]. split; by_eval.
Qed.

Lemma words_split_on_space_only_witness :
  (SPACE ∉ chars hey_tab_google)
  ∧ (TAB ∈ chars hey_tab_google)
  ∧ str_split SPACE hey_tab_google = [hey_tab_google]
  ∧ variant_set hey_tab_google false true false false true false
    = {[ hey_tab_google ]}.
Proof.
  assert (SPACE ∉ chars hey_tab_google) as Hs by by_eval.
  split; [done|]. split; [by_eval|].
  destruct (words_split_on_space_only hey_tab_google Hs) as (Hsplit & Hinfix & _).
  split; [exact Hsplit|].
  rewrite Hinfix. vm_compute. reflexivity.
Defined.

(** ** The button handler *)

#[local] Instance blank_dec s : Decision (blank s).
Proof. unfold blank. apply _. Defined.

Lemma parse_seeds_lines seeds_input :
  parse_seeds seeds_input
  = strip <$> filter (λ line, ¬ blank line) (str_split LF seeds_input).
Proof.
  unfold parse_seeds. f_equal. apply list_filter_iff.
  intros line. by rewrite strip_empty_iff.
Qed.

Lemma parse_seeds_trimmed seeds_input :
  Forall (λ s, s ≠ "" ∧ strip s = s) (parse_seeds seeds_input).
Proof.
  unfold parse_seeds. apply Forall_fmap, Forall_forall.
  intros line [Hne _]%list_elem_of_filter. simpl.
  split; [done|apply strip_idem].
Qed.

Lemma parse_seeds_blank seeds_input :
  blank seeds_input → parse_seeds seeds_input = [].
Proof.
  intros Hb. rewrite parse_seeds_lines.
  destruct (filter (λ line, ¬ blank line) (str_split LF seeds_input))
    as [|line lines] eqn:E; [done|].
  assert (line ∈ filter (λ line, ¬ blank line) (str_split LF seeds_input))
    as [Hnb Hline]%list_elem_of_filter by (rewrite E; left).
  destruct Hnb. apply Forall_forall. intros c Hc.
  unfold blank in Hb. rewrite Forall_forall in Hb.
  apply Hb. by eapply str_split_chars.
Qed.

(** C6. The seeds are the lines of the input that are not blank, each
    stripped: a blank or whitespace-only line gives no seed, and every seed
    is non-empty and trimmed. An input of whitespace only leaves no seed,
    and when no seed remains the handler rejects the run with its error
    message: [run_scraper] is not called, no fetch is logged and the world
    is untouched. When a seed remains the handler runs the collector on
    the seeds. *)
Theorem empty_seed_list_rejected {World : Type}
    (http_get_json : string → string → string → World → http_outcome * World)
    (str_other : pyval → string) (L : set_listing)
    (seeds_input lang gl : string) (max_per_variant : Z)
    (use_letters use_wildcards use_questions
     use_prefix use_infix use_suffix : bool) (w : World) :
  parse_seeds seeds_input
  = strip <$> filter (λ line, ¬ blank line) (str_split LF seeds_input)
  ∧ Forall (λ s, s ≠ "" ∧ strip s = s) (parse_seeds seeds_input)
  ∧ (blank seeds_input → parse_seeds seeds_input = [])
  ∧ (parse_seeds seeds_input = [] →
     run_button http_get_json str_other L seeds_input lang gl max_per_variant
       use_letters use_wildcards use_questions use_prefix use_infix use_suffix w
     = (Rejected "Please enter at least one seed!", Env w [] []))
  ∧ (parse_seeds seeds_input ≠ [] →
     let run :=
       run_scraper http_get_json str_other L (parse_seeds seeds_input)
         lang gl max_per_variant
         use_letters use_wildcards use_questions use_prefix use_infix use_suffix w in
     run_button http_get_json str_other L seeds_input lang gl max_per_variant
       use_letters use_wildcards use_questions use_prefix use_infix use_suffix w
     = (Ran run.1, run.2)).
Proof.
  split; [apply parse_seeds_lines|].
  split; [apply parse_seeds_trimmed|].
  split; [apply parse_seeds_blank|].
  unfold run_button. split.
  - by intros ->.
  - intros Hne. destruct (parse_seeds seeds_input) as [|s ss] eqn:E; [done|].
    cbv zeta. by destruct (run_scraper _ _ _ _ _ _ _ _ _ _ _ _ _ _).
Qed.

(** A provider that answers every query with one suggestion, the query
    followed by " now". *)
Definition echo_provider (query lang gl : string) (w : unit)
  : http_outcome * unit :=
  (Json (PyList [PyStr query; PyList [PyStr (query +:+ " now")]]), w).

(** [str] of the values that are not strings, left unspecified. *)
Definition any_str (v : pyval) : string := "?".

(** Two blank lines and a line of a tab and spaces. *)
Definition blank_input : string :=
  String LF (String LF (String TAB "  ")).

Lemma empty_seed_list_rejected_witness :
  parse_seeds blank_input = []
  ∧ run_button echo_provider any_str elements_listing blank_input "en" "US" 20
      true true true true false true tt
    = (Rejected "Please enter at least one seed!", Env tt [] []).
Proof.
  assert (parse_seeds blank_input = []) as Hnone by (vm_compute; reflexivity).
  split; [exact Hnone|].
  apply (empty_seed_list_rejected echo_provider any_str elements_listing
           blank_input "en" "US" 20 true true true true false true tt).
  exact Hnone.
Defined.

(** ** The collector *)

Section CollectorFacts.

Context {World : Type}.
Variable http_get_json : string → string → string → World → http_outcome * World.
Variable str_other : pyval → string.
Variable L : set_listing.

(** Every row a run of [suggestion_body] leaves in [all_results] is a
    [row] literal, when the rows it started from are. *)
Definition rows_wellformed (rows : list pydict) : Prop :=
  Forall (λ r, ∃ seed variant suggestion, r = row seed variant suggestion) rows.

Lemma suggestion_body_rows seed variant acc suggestion :
  rows_wellformed (all_results acc) →
  rows_wellformed (all_results (suggestion_body str_other seed variant acc suggestion)).
Proof.
  intros Hacc. unfold suggestion_body. cbv zeta.
  case_decide; [done|]. simpl.
  apply Forall_app. split; [done|].
  apply Forall_singleton. by exists seed, variant, suggestion.
Qed.

Lemma suggestions_rows seed variant items acc :
  rows_wellformed (all_results acc) →
  rows_wellformed
    (all_results (foldl (suggestion_body str_other seed variant) acc items)).
Proof.
  revert acc. induction items as [|x items IH]; intros acc Hacc; simpl; [done|].
  by apply IH, suggestion_body_rows.
Qed.

Lemma variant_loop_rows seed_idx seed lang gl max_per_variant variants count acc e acc' e' :
  rows_wellformed (all_results acc) →
  variant_loop http_get_json str_other seed_idx seed lang gl max_per_variant
    variants count acc e = (Ok acc', e') →
  rows_wellformed (all_results acc').
Proof.
  revert count acc e.
  induction variants as [|v vs IH]; intros count acc e Hacc; simpl.
  - by intros [= <- _].
  - destruct (max_per_variant <=? count)%Z; [by intros [= <- _]|].
    destruct (fetch_suggestions http_get_json v lang gl (world e))
      as [[suggestions warned] w'].
    destruct (py_iter suggestions) as [items|]; [|done].
    apply IH. by apply suggestions_rows.
Qed.

Lemma seed_loop_rows seed_idx seeds lang gl max_per_variant l w q p i s acc e acc' e' :
  rows_wellformed (all_results acc) →
  seed_loop http_get_json str_other L seed_idx seeds lang gl max_per_variant
    l w q p i s acc e = (Ok acc', e') →
  rows_wellformed (all_results acc').
Proof.
  revert seed_idx acc e.
  induction seeds as [|seed seeds IH]; intros seed_idx acc e Hacc; simpl.
  - by intros [= <- _].
  - destruct (variant_loop _ _ _ _ _ _ _ _ _ _ _) as [[acc1|x] e1] eqn:E; [|done].
    apply IH. by eapply variant_loop_rows.
Qed.

(** When every reply can be iterated, the loop over the variants ends
    normally after one fetch for each of the first
    [max_per_variant - count] variants, in order. *)
Lemma variant_loop_calls seed_idx seed lang gl max_per_variant variants count acc e :
  iterable_replies http_get_json →
  ∃ acc' e',
    variant_loop http_get_json str_other seed_idx seed lang gl max_per_variant
      variants count acc e = (Ok acc', e')
    ∧ fetch_log e'
      = (fetch_log e
         ++ ((λ v, (seed_idx, v)) <$> take (Z.to_nat (max_per_variant - count)) variants))%list.
Proof.
  intros Hit. revert count acc e.
  induction variants as [|v vs IH]; intros count acc e; simpl.
  - exists acc, e. by rewrite take_nil, app_nil_r.
  - destruct (Z.leb_spec max_per_variant count) as [Hle|Hlt].
    + exists acc, e. split; [done|].
      replace (Z.to_nat (max_per_variant - count)) with 0%nat by lia.
      by rewrite app_nil_r.
    + pose proof (Hit v lang gl (world e)) as Hsome.
      destruct (fetch_suggestions http_get_json v lang gl (world e))
        as [[suggestions warned] w'].
      simpl in Hsome. destruct Hsome as [items ->].
      edestruct IH as (acc' & e' & -> & Hlog).
      exists acc', e'. split; [done|].
      rewrite Hlog. simpl.
      replace (Z.to_nat (max_per_variant - count))
        with (S (Z.to_nat (max_per_variant - (count + 1)))) by lia.
      simpl. by rewrite <- app_assoc.
Qed.

End CollectorFacts.

(** The calls a complete run makes, seed by seed from index [k]: for each
    seed the first [n] entries of its variant list. *)
Fixpoint planned_calls (L : set_listing) (l w q p i s : bool)
    (n k : nat) (seeds : list string) : list (nat * string) :=
  match seeds with
  | [] => []
  | seed :: seeds' =>
      ((λ v, (k, v)) <$> take n (generate_variants L seed l w q p i s))
      ++ planned_calls L l w q p i s n (S k) seeds'
  end.

Lemma calls_for_app i log1 log2 :
  calls_for i (log1 ++ log2) = (calls_for i log1 + calls_for i log2)%nat.
Proof. unfold calls_for. by rewrite filter_app, length_app. Qed.

Lemma calls_for_tagged i k (vs : list string) :
  calls_for i ((λ v, (k, v)) <$> vs) = if decide (k = i) then length vs else 0%nat.
Proof.
  unfold calls_for. destruct (decide (k = i)) as [Hk|Hk].
  - induction vs as [|v vs IH]; [done|].
    rewrite fmap_cons, filter_cons_True by done.
    cbn [length]. by rewrite IH.
  - induction vs as [|v vs IH]; [done|].
    by rewrite fmap_cons, filter_cons_False by done.
Qed.

Lemma calls_for_planned L l w q p i s n seeds k j :
  calls_for j (planned_calls L l w q p i s n k seeds)
  = if decide (k ≤ j)%nat
    then from_option
           (λ seed, length (take n (generate_variants L seed l w q p i s)))
           0%nat (seeds !! (j - k)%nat)
    else 0%nat.
Proof.
  revert k. induction seeds as [|seed seeds IH]; intros k; simpl.
  - by case_decide.
  - rewrite calls_for_app, calls_for_tagged, IH.
    destruct (decide (k = j)) as [->|Hne].
    + rewrite Nat.sub_diag. simpl. repeat case_decide; lia.
    + destruct (decide (k ≤ j)%nat) as [Hle|Hgt].
      * replace (j - k)%nat with (S (j - S k)) by lia. simpl.
        repeat case_decide; lia.
      * repeat case_decide; lia.
Qed.

Section CollectorRuns.

Context {World : Type}.
Variable http_get_json : string → string → string → World → http_outcome * World.
Variable str_other : pyval → string.
Variable L : set_listing.

Lemma seed_loop_calls seed_idx seeds lang gl max_per_variant l w q p i s acc e :
  iterable_replies http_get_json →
  ∃ acc' e',
    seed_loop http_get_json str_other L seed_idx seeds lang gl max_per_variant
      l w q p i s acc e = (Ok acc', e')
    ∧ fetch_log e'
      = (fetch_log e
         ++ planned_calls L l w q p i s (Z.to_nat max_per_variant) seed_idx seeds)%list.
Proof.
  intros Hit. revert seed_idx acc e.
  induction seeds as [|seed seeds IH]; intros seed_idx acc e; simpl.
  - exists acc, e. by rewrite app_nil_r.
  - destruct (variant_loop_calls http_get_json str_other seed_idx seed lang gl
                max_per_variant (generate_variants L seed l w q p i s) 0 acc e Hit)
      as (acc1 & e1 & -> & Hlog1).
    destruct (IH (S seed_idx) acc1 e1) as (acc' & e' & -> & Hlog).
    exists acc', e'. split; [done|].
    rewrite Hlog, Hlog1, Z.sub_0_r. by rewrite <- app_assoc.
Qed.

(** A run whose replies can all be iterated returns its rows, and its
    fetches are the planned ones. *)
Lemma run_scraper_calls seeds lang gl max_per_variant l w q p i s world0 :
  iterable_replies http_get_json →
  ∃ rows e',
    run_scraper http_get_json str_other L seeds lang gl max_per_variant
      l w q p i s world0 = (Ok rows, e')
    ∧ fetch_log e'
      = planned_calls L l w q p i s (Z.to_nat max_per_variant) 0 seeds.
Proof.
  intros Hit. unfold run_scraper.
  destruct (seed_loop_calls 0 seeds lang gl max_per_variant l w q p i s
              {| all_results := []; seen := ∅ |}
              {| world := world0; fetch_log := []; warnings := [] |} Hit)
    as (acc' & e' & -> & Hlog).
  by exists (all_results acc'), e'.
Qed.

Lemma run_scraper_rows seeds lang gl max_per_variant l w q p i s world0 rows e' :
  run_scraper http_get_json str_other L seeds lang gl max_per_variant
    l w q p i s world0 = (Ok rows, e') →
  rows_wellformed rows.
Proof.
  unfold run_scraper.
  destruct (seed_loop _ _ _ _ _ _ _ _ _ _ _ _ _ _ _ _) as [[acc1|x] e1] eqn:E; [|done].
  intros [= <- _]. eapply seed_loop_rows; [|exact E]. constructor.
Qed.

End CollectorRuns.


Lemma echo_provider_iterable : iterable_replies echo_provider.
Proof. intros query lang gl w. by eexists. Qed.


(** C7. Every row of the result set is the dict literal of lines 216-221:
    its keys are seed, variant, query_sent, suggestion in that order, and
    the values under query_sent and variant are the same string, the query
    sent. A run whose replies can all be iterated returns such a result
    set. *)
Theorem rows_have_four_fields {World : Type}
    (http_get_json : string → string → string → World → http_outcome * World)
    (str_other : pyval → string) (L : set_listing)
    (seeds_list : list string) (lang gl : string) (max_per_variant : Z)
    (use_letters use_wildcards use_questions
     use_prefix use_infix use_suffix : bool) (w : World) :
  (∀ rows e',
     run_scraper http_get_json str_other L seeds_list lang gl max_per_variant
       use_letters use_wildcards use_questions use_prefix use_infix use_suffix w
     = (Ok rows, e') →
     Forall (λ r,
       r.*1 = ["seed"; "variant"; "query_sent"; "suggestion"]
       ∧ (∃ seed, dict_get "seed" r = Some (PyStr seed))
       ∧ (∃ variant, dict_get "variant" r = Some (PyStr variant)
                     ∧ dict_get "query_sent" r = Some (PyStr variant))
       ∧ is_Some (dict_get "suggestion" r)) rows)
  ∧ (iterable_replies http_get_json →
     ∃ rows e',
       run_scraper http_get_json str_other L seeds_list lang gl max_per_variant
         use_letters use_wildcards use_questions use_prefix use_infix use_suffix w
       = (Ok rows, e')).
Proof.
  split.
  - intros rows e' Hrun.
    eapply Forall_impl; [by eapply run_scraper_rows|].
    intros r (seed & variant & suggestion & ->). simpl.
    split; [done|]. split; [by exists seed|].
    split; [by exists variant|]. by exists suggestion.
  - intros Hit.
    destruct (run_scraper_calls http_get_json str_other L seeds_list lang gl
                max_per_variant use_letters use_wildcards use_questions
                use_prefix use_infix use_suffix w Hit) as (rows & e' & Hrun & _).
    by exists rows, e'.
Qed.

Lemma rows_have_four_fields_witness :
  run_scraper echo_provider any_str elements_listing ["hey google"] "en" "US" 20
    false true false false false true tt
  = (Ok [row "hey google" "hey google *" (PyStr "hey google * now");
         row "hey google" "hey google" (PyStr "hey google now")],
     Env tt [(0%nat, "hey google *"); (0%nat, "hey google")] [])
  ∧ Forall (λ r,
       r.*1 = ["seed"; "variant"; "query_sent"; "suggestion"]
       ∧ (∃ seed, dict_get "seed" r = Some (PyStr seed))
       ∧ (∃ variant, dict_get "variant" r = Some (PyStr variant)
                     ∧ dict_get "query_sent" r = Some (PyStr variant))
       ∧ is_Some (dict_get "suggestion" r))
      [row "hey google" "hey google *" (PyStr "hey google * now");
       row "hey google" "hey google" (PyStr "hey google now")].
Proof.
  assert (run_scraper echo_provider any_str elements_listing ["hey google"]
            "en" "US" 20 false true false false false true tt
          = (Ok [row "hey google" "hey google *" (PyStr "hey google * now");
                 row "hey google" "hey google" (PyStr "hey google now")],
             Env tt [(0%nat, "hey google *"); (0%nat, "hey google")] []))
    as Hrun by (vm_compute; reflexivity).
  split; [exact Hrun|].
  exact (proj1 (rows_have_four_fields echo_provider any_str elements_listing
                  ["hey google"] "en" "US" 20
                  false true false false false true tt) _ _ Hrun).
Defined.

(** The scenario of the specification when the replies can be iterated.
    For the seed "hey google" with only letters and suffix enabled,
    the variant set is the bare seed and the 26 strings "hey google a" to
    "hey google z", 27 members. With [max_per_variant] = 5, a run on that
    seed whose replies can all be iterated makes exactly 5 fetches, for the
    first 5 entries of the list [generate_variants] returned, which are 5
    distinct members of the set. *)
Theorem hey_google_letters_suffix {World : Type}
    (http_get_json : string → string → string → World → http_outcome * World)
    (str_other : pyval → string) (L : set_listing)
    (lang gl : string) (w : World) :
  iterable_replies http_get_json →
  let variants :=
    generate_variants L "hey google" true false false false false true in
  variant_set "hey google" true false false false false true
  = list_to_set ("hey google" :: ((λ letter, "hey google " +:+ letter) <$> ALPHABET))
  ∧ length ALPHABET = 26%nat
  ∧ size (variant_set "hey google" true false false false false true) = 27%nat
  ∧ length variants = 27%nat
  ∧ ∃ rows e',
      run_scraper http_get_json str_other L ["hey google"] lang gl 5
        true false false false false true w = (Ok rows, e')
      ∧ fetch_log e' = (λ v, (0%nat, v)) <$> take 5 variants
      ∧ length (fetch_log e') = 5%nat
      ∧ NoDup (take 5 variants)
      ∧ Forall (λ v, v ∈ variant_set "hey google" true false false false false true)
          (take 5 variants).
Proof.
  intros Hit variants.
  assert (size (variant_set "hey google" true false false false false true) = 27%nat)
    as Hsize by (vm_compute; reflexivity).
  assert (length variants = 27%nat) as Hlen.
  { unfold variants, generate_variants. rewrite list_of_length. exact Hsize. }
  split; [vm_compute; reflexivity|]. split; [reflexivity|].
  split; [exact Hsize|]. split; [exact Hlen|].
  destruct (run_scraper_calls http_get_json str_other L ["hey google"] lang gl 5
              true false false false false true w Hit) as (rows & e' & Hrun & Hlog).
  exists rows, e'. split; [exact Hrun|].
  assert (fetch_log e' = (λ v, (0%nat, v)) <$> take 5 variants) as Hlog'.
  { rewrite Hlog. change (Z.to_nat 5) with 5%nat.
    cbn [planned_calls]. apply app_nil_r. }
  split; [exact Hlog'|]. split.
  - rewrite Hlog', length_fmap, length_take, Hlen. reflexivity.
  - split.
    + eapply sublist_NoDup; [apply list_of_NoDup|apply sublist_take].
    + apply Forall_take, Forall_forall. intros v Hv.
      by apply list_of_elem in Hv.
Qed.

Lemma hey_google_letters_suffix_witness :
  iterable_replies echo_provider
  ∧ ∃ rows e',
      run_scraper echo_provider any_str elements_listing ["hey google"] "en" "US" 5
        true false false false false true tt = (Ok rows, e')
      ∧ length (fetch_log e') = 5%nat.
Proof.
  split; [exact echo_provider_iterable|].
  destruct (hey_google_letters_suffix echo_provider any_str elements_listing
              "en" "US" tt echo_provider_iterable)
    as (_ & _ & _ & _ & rows & e' & Hrun & _ & Hfive & _).
  exists rows, e'. split; [exact Hrun|exact Hfive].
Defined.

(** ** Where the code departs from the specification *)

(** A provider whose reply to the query "a" is the suggestion "|||b" and
    whose reply to any other query is the suggestion "b". *)
Definition colliding_provider (query lang gl : string) (w : unit)
  : http_outcome * unit :=
  (if decide (query = "a")
   then Json (PyList [PyStr "a"; PyList [PyStr "|||b"]])
   else Json (PyList [PyStr query; PyList [PyStr "b"]]), w).

(** C2 on the code. The key of line 213 is the string
    seed + "|||" + suggestion, which two different pairs can share: with the
    seeds "a" and "a|||", the suggestion "|||b" of the first seed and the
    suggestion "b" of the second both have the key "a||||||b". Both
    suggestions are fetched, and the run returns one row only: the pair
    ("a|||", "b") has no row although no row with that pair came before. *)
Theorem key_collision_drops_row :
  fetch_suggestions colliding_provider "a" "en" "US" tt
  = (PyList [PyStr "|||b"], false, tt)
  ∧ fetch_suggestions colliding_provider "a|||" "en" "US" tt
    = (PyList [PyStr "b"], false, tt)
  ∧ "a" +:+ "|||" +:+ py_format any_str (PyStr "|||b")
    = "a|||" +:+ "|||" +:+ py_format any_str (PyStr "b")
  ∧ run_scraper colliding_provider any_str elements_listing ["a"; "a|||"]
      "en" "US" 20 false false false false false false tt
    = (Ok [row "a" "a" (PyStr "|||b")],
       Env tt [(0%nat, "a"); (1%nat, "a|||")] []).
Proof.
  split; [vm_compute; reflexivity|].
  split; [vm_compute; reflexivity|].
  split; vm_compute; reflexivity.
Qed.

(** A provider whose reply is a JSON array with a number where the list
    of suggestions is expected. *)
Definition malformed_provider (query lang gl : string) (w : unit)
  : http_outcome * unit :=
  (Json (PyList [PyStr query; PyInt 5]), w).

(** C3 on the code. A reply of an unexpected shape, a JSON array whose
    second element is the number 5, is not turned into the empty list:
    [fetch_suggestions] returns the number without a warning, the [for]
    loop of line 212 raises TypeError on it, and the exception leaves
    [run_scraper]: the second seed is never processed and no result set
    is returned. *)
Theorem malformed_reply_raises :
  fetch_suggestions malformed_provider "hey google" "en" "US" tt
  = (PyInt 5, false, tt)
  ∧ py_iter (PyInt 5) = None
  ∧ run_scraper malformed_provider any_str elements_listing
      ["hey google"; "ok google"] "en" "US" 20
      false false false false false false tt
    = (Raised TypeError, Env tt [(0%nat, "hey google")] []).
Proof.
  split; [vm_compute; reflexivity|].
  split; vm_compute; reflexivity.
Qed.

(** C1 on the code. The defect of C3 also breaks the count of fetches:
    with the seeds "hey google" and "ok google", all options off and the
    cap 20, each seed has one variant, so each should get min(1, 20) = 1
    fetch. The reply to the first fetch is a JSON array whose second
    element is the number 5, the run raises, and the second seed gets no
    fetch at all. *)
Theorem malformed_reply_cuts_fetches :
  let run :=
    run_scraper malformed_provider any_str elements_listing
      ["hey google"; "ok google"] "en" "US" 20
      false false false false false false tt in
  run.1 = Raised TypeError
  ∧ fetch_log run.2 = [(0%nat, "hey google")]
  ∧ Z.min (Z.of_nat (length (generate_variants elements_listing "ok google"
                               false false false false false false))) 20 = 1%Z
  ∧ calls_for 1 (fetch_log run.2) = 0%nat.
Proof.
  cbv zeta.
  split; [vm_compute; reflexivity|].
  split; [vm_compute; reflexivity|].
  split; vm_compute; reflexivity.
Qed.

(** C8 on the code. The variant set of "hey google" with letters and
    suffix is the seed and "hey google a" to "hey google z", as the claim
    says; but with [max_per_variant] = 5 the run does not make 5 fetches
    when the reply to the first one is a JSON array whose second element is
    the number 5: whatever the order of [list(variants)], the first variant
    is fetched, the run raises and no other fetch is made (the defect of
    C3). *)
Theorem hey_google_run_cut_short (L : set_listing) :
  variant_set "hey google" true false false false false true
  = list_to_set ("hey google" :: ((λ letter, "hey google " +:+ letter) <$> ALPHABET))
  ∧ let run :=
      run_scraper malformed_provider any_str L ["hey google"] "en" "US" 5
        true false false false false true tt in
    run.1 = Raised TypeError
    ∧ fetch_log run.2
      = (λ v, (0%nat, v))
          <$> take 1 (generate_variants L "hey google"
                        true false false false false true)
    ∧ length (fetch_log run.2) = 1%nat.
Proof.
  split; [vm_compute; reflexivity|].
  cbv zeta. unfold run_scraper. cbn [seed_loop].
  assert (length (generate_variants L "hey google"
                    true false false false false true) = 27%nat) as Hlen.
  { unfold generate_variants. rewrite list_of_length. vm_compute. reflexivity. }
  destruct (generate_variants L "hey google" true false false false false true)
    as [|v vs]; [discriminate Hlen|].
  simpl. split; [reflexivity|]. split; reflexivity.
Qed.

(** * Further properties of the code *)

(** ** generate_variants *)

(** X1. The strings [generate_variants] returns are exactly the seed and the
    strings of the templates of the enabled options. *)
Theorem variants_are_templates (L : set_listing) (seed : string)
    (use_letters use_wildcards use_questions
     use_prefix use_infix use_suffix : bool) (x : string) :
  x ∈ generate_variants L seed use_letters use_wildcards use_questions
        use_prefix use_infix use_suffix
  ↔ x = seed
    ∨ (use_letters = true
       ∧ ∃ letter, letter ∈ ALPHABET
           ∧ x ∈ letter_forms seed use_wildcards use_prefix use_infix use_suffix letter)
    ∨ (use_wildcards = true
       ∧ x ∈ wildcard_forms seed use_prefix use_infix use_suffix)
    ∨ (use_questions = true
       ∧ ∃ qw, qw ∈ QUESTION_WORDS
           ∧ x ∈ question_forms seed use_wildcards use_prefix use_suffix qw).
Proof.
  unfold generate_variants.
  rewrite list_of_elem, variant_set_forms, elem_of_list_to_set.
  unfold variant_forms.
  rewrite elem_of_cons, !elem_of_app.
  destruct use_letters, use_wildcards, use_questions;
    rewrite ?list_elem_of_bind, ?elem_of_nil; naive_solver.
Qed.

Lemma length_bind_le {A B} (f : A → list B) (k : nat) (l : list A) :
  (∀ a, length (f a) ≤ k)%nat → (length (l ≫= f) ≤ length l * k)%nat.
Proof.
  intros Hf. induction l as [|a l IH]; [simpl; lia|].
  rewrite bind_cons, length_app. specialize (Hf a). simpl. lia.
Qed.

Lemma size_list_to_set_le (l : list string) :
  (size (list_to_set l : gset string) ≤ length l)%nat.
Proof.
  induction l as [|x l IH].
  - rewrite list_to_set_nil, size_empty. simpl. lia.
  - rewrite list_to_set_cons, size_union_alt, size_singleton.
    assert (size ((list_to_set l : gset string) ∖ {[x]}) ≤ size (list_to_set l : gset string))%nat
      as Hle by (apply subseteq_size; set_solver).
    simpl. lia.
Qed.

Lemma variant_forms_length seed l w q p i s :
  (length (variant_forms seed l w q p i s) ≤ 316)%nat.
Proof.
  unfold variant_forms. cbn [length]. rewrite !length_app.
  assert (length (if l then ALPHABET ≫= letter_forms seed w p i s else []) ≤ 26 * 9)%nat.
  { destruct l; [|simpl; lia].
    apply (length_bind_le _ 9 ALPHABET). intros letter.
    unfold letter_forms. destruct (infix_parts seed) as [[first rest]|], w, p, i, s; simpl; lia. }
  assert (length (if w then wildcard_forms seed p i s else []) ≤ 3)%nat.
  { destruct w; [|simpl; lia].
    unfold wildcard_forms. destruct (infix_parts seed) as [[first rest]|], p, i, s; simpl; lia. }
  assert (length (if q then QUESTION_WORDS ≫= question_forms seed w p s else []) ≤ 13 * 6)%nat.
  { destruct q; [|simpl; lia].
    apply (length_bind_le _ 6 QUESTION_WORDS). intros qw.
    unfold question_forms. destruct w, p, s; simpl; lia. }
  lia.
Qed.

(** X2. [generate_variants] returns at least the seed and at most 316
    variants (1 + 26 * 9 + 3 + 13 * 6), whatever the seed and the options,
    and never the same variant twice. *)
Theorem variant_count_bounds (L : set_listing) (seed : string)
    (use_letters use_wildcards use_questions
     use_prefix use_infix use_suffix : bool) :
  let variants :=
    generate_variants L seed use_letters use_wildcards use_questions
      use_prefix use_infix use_suffix in
  (1 ≤ length variants ≤ 316)%nat ∧ NoDup variants.
Proof.
  intros variants. unfold variants, generate_variants.
  split; [|apply list_of_NoDup].
  rewrite list_of_length. split.
  - pose proof (variant_set_has_seed seed use_letters use_wildcards use_questions
                  use_prefix use_infix use_suffix) as Hin.
    apply elem_of_elements in Hin.
    unfold size, set_size. simpl.
    destruct (elements _); [by apply elem_of_nil in Hin|simpl; lia].
  - rewrite variant_set_forms.
    etrans; [apply size_list_to_set_le|apply variant_forms_length].
Qed.

(** X3. With no position enabled, or with none of letters, wildcards and
    questions enabled, the seed is the only variant: every [add] of
    [generate_variants] sits under one flag of each group. *)
Theorem seed_alone_without_options (L : set_listing) (seed : string)
    (l w q p i s : bool) :
  (p = false ∧ i = false ∧ s = false) ∨ (l = false ∧ w = false ∧ q = false) →
  variant_set seed l w q p i s = {[ seed ]}
  ∧ generate_variants L seed l w q p i s = [seed].
Proof.
  intros Hoff.
  assert (variant_set seed l w q p i s = {[ seed ]}) as Hset.
  { rewrite variant_set_forms.
    assert (variant_forms seed l w q p i s = [seed]) as ->.
    { destruct Hoff as [(-> & -> & ->)|(-> & -> & ->)].
      - destruct l, w, q; reflexivity.
      - reflexivity. }
    rewrite list_to_set_cons, list_to_set_nil. apply (right_id_L ∅ (∪)). }
  split; [exact Hset|].
  unfold generate_variants. rewrite Hset.
  apply Permutation_singleton_r.
  rewrite (list_of_perm L {[seed]}). by rewrite elements_singleton.
Qed.

Lemma seed_alone_without_options_witness :
  variant_set "hey google" true true true false false false = {[ "hey google" ]}
  ∧ generate_variants elements_listing "hey google" true true true false false false
    = ["hey google"].
Proof.
  apply (seed_alone_without_options elements_listing "hey google"
           true true true false false false).
  left. repeat split; reflexivity.
Defined.

(** Switching one flag on keeps every string of the list. *)
Lemma if_nil_mono {A} (b b' : bool) (xs : list A) (x : A) :
  (b = true → b' = true) →
  x ∈ (if b then xs else []) → x ∈ (if b' then xs else []).
Proof. destruct b, b'; intros Hb Hx; try done; [by specialize (Hb eq_refl)|by apply elem_of_nil in Hx]. Qed.

Lemma letter_forms_mono seed w p i s w' p' i' s' letter x :
  (w = true → w' = true) → (p = true → p' = true) →
  (i = true → i' = true) → (s = true → s' = true) →
  x ∈ letter_forms seed w p i s letter → x ∈ letter_forms seed w' p' i' s' letter.
Proof.
  intros Hw Hp Hi Hs. unfold letter_forms.
  destruct (infix_parts seed) as [[first rest]|];
    destruct w, p, i, s, w', p', i', s';
    try discriminate (Hw eq_refl); try discriminate (Hp eq_refl);
    try discriminate (Hi eq_refl); try discriminate (Hs eq_refl);
    set_solver.
Qed.

Lemma wildcard_forms_mono seed p i s p' i' s' x :
  (p = true → p' = true) → (i = true → i' = true) → (s = true → s' = true) →
  x ∈ wildcard_forms seed p i s → x ∈ wildcard_forms seed p' i' s'.
Proof.
  intros Hp Hi Hs. unfold wildcard_forms.
  destruct (infix_parts seed) as [[first rest]|];
    destruct p, i, s, p', i', s';
    try discriminate (Hp eq_refl);
    try discriminate (Hi eq_refl); try discriminate (Hs eq_refl);
    set_solver.
Qed.

Lemma question_forms_mono seed w p s w' p' s' qw x :
  (w = true → w' = true) → (p = true → p' = true) → (s = true → s' = true) →
  x ∈ question_forms seed w p s qw → x ∈ question_forms seed w' p' s' qw.
Proof.
  intros Hw Hp Hs. unfold question_forms.
  destruct w, p, s, w', p', s';
    try discriminate (Hw eq_refl); try discriminate (Hp eq_refl);
    try discriminate (Hs eq_refl);
    set_solver.
Qed.

(** X4. The options are additive: enabling more of them never removes a
    variant. *)
Theorem options_are_additive (seed : string)
    (l w q p i s l' w' q' p' i' s' : bool) :
  (l = true → l' = true) → (w = true → w' = true) → (q = true → q' = true) →
  (p = true → p' = true) → (i = true → i' = true) → (s = true → s' = true) →
  variant_set seed l w q p i s ⊆ variant_set seed l' w' q' p' i' s'.
Proof.
  intros Hl Hw Hq Hp Hi Hs x.
  rewrite !variant_set_forms, !elem_of_list_to_set. unfold variant_forms.
  rewrite !elem_of_cons, !elem_of_app.
  intros [->|[Hx|[Hx|Hx]]]; [by left|right; left|right; right; left|right; right; right].
  - destruct l; [|by apply elem_of_nil in Hx].
    rewrite (Hl eq_refl).
    apply list_elem_of_bind in Hx as (letter & Hx & Hletter).
    apply list_elem_of_bind. exists letter. split; [|done].
    by eapply letter_forms_mono.
  - destruct w; [|by apply elem_of_nil in Hx].
    rewrite (Hw eq_refl). by eapply wildcard_forms_mono.
  - destruct q; [|by apply elem_of_nil in Hx].
    rewrite (Hq eq_refl).
    apply list_elem_of_bind in Hx as (qw & Hx & Hqw).
    apply list_elem_of_bind. exists qw. split; [|done].
    by eapply question_forms_mono.
Qed.

Lemma options_are_additive_witness :
  variant_set "hey google" true false false false false true
  ⊆ variant_set "hey google" true true true true false true.
Proof.
  apply (options_are_additive "hey google"); intros H; first [exact H|reflexivity].
Defined.

Lemma infix_parts_split first rest :
  SPACE ∉ chars first →
  infix_parts (first +:+ " " +:+ rest) = Some (first, rest).
Proof.
  intros Hf. unfold infix_parts. cbv zeta.
  change (first +:+ " " +:+ rest) with (first +:+ String SPACE rest).
  rewrite (str_split_first SPACE first rest Hf).
  pose proof (str_split_nonempty SPACE rest) as Hne.
  destruct (str_split SPACE rest) as [|w ws] eqn:E; [done|].
  cbn [length Nat.ltb Nat.leb first_word rest_words hd tl].
  rewrite <- E. change " " with (String SPACE "").
  by rewrite str_join_split.
Qed.

Lemma infix_parts_single seed : SPACE ∉ chars seed → infix_parts seed = None.
Proof.
  intros Hs. unfold infix_parts. cbv zeta.
  by rewrite (str_split_single _ _ Hs).
Qed.

(** X5. On a seed "first rest" whose first word ends at its first space,
    letters with infix insert each letter as a new second word,
    "first L rest"; with wildcards as well, "first*L rest" and
    "first L*rest" are added. With letters and infix alone the set is the
    seed and the 26 strings "first L rest". *)
Theorem infix_letter_variants (first rest : string) :
  SPACE ∉ chars first →
  let seed := first +:+ " " +:+ rest in
  (∀ w q p s letter, letter ∈ ALPHABET →
     first +:+ " " +:+ letter +:+ " " +:+ rest
     ∈ variant_set seed true w q p true s)
  ∧ (∀ q p s letter, letter ∈ ALPHABET →
       first +:+ "*" +:+ letter +:+ " " +:+ rest
       ∈ variant_set seed true true q p true s
       ∧ first +:+ " " +:+ letter +:+ "*" +:+ rest
         ∈ variant_set seed true true q p true s)
  ∧ variant_set seed true false false false true false
    = list_to_set
        (seed :: ((λ letter, first +:+ " " +:+ letter +:+ " " +:+ rest) <$> ALPHABET)).
Proof.
  intros Hf seed.
  pose proof (infix_parts_split first rest Hf) as Hparts. fold seed in Hparts.
  split; [|split].
  - intros w q p s letter Hl.
    rewrite variant_set_forms, elem_of_list_to_set. unfold variant_forms.
    apply elem_of_cons. right. apply elem_of_app. left.
    apply list_elem_of_bind. exists letter. split; [|done].
    unfold letter_forms. rewrite Hparts. destruct w, p, s; set_solver.
  - intros q p s letter Hl.
    rewrite variant_set_forms, !elem_of_list_to_set. unfold variant_forms.
    split; (apply elem_of_cons; right; apply elem_of_app; left;
            apply list_elem_of_bind; exists letter; split; [|done];
            unfold letter_forms; rewrite Hparts; destruct p, s; set_solver).
  - rewrite variant_set_forms. f_equal.
    unfold variant_forms, letter_forms. rewrite Hparts. reflexivity.
Qed.

Lemma infix_letter_variants_witness :
  (SPACE ∉ chars "hey")
  ∧ "hey a google" ∈ variant_set "hey google" true false false false true false
  ∧ "hey*n google" ∈ variant_set "hey google" true true false false true false
  ∧ "hey n*google" ∈ variant_set "hey google" true true false false true false.
Proof.
  assert (SPACE ∉ chars "hey") as Hs by by_eval.
  assert ("a" ∈ ALPHABET) as Ha by by_eval.
  assert ("n" ∈ ALPHABET) as Hn by by_eval.
  split; [exact Hs|].
  destruct (infix_letter_variants "hey" "google" Hs) as (Hletter & Hwild & _).
  split; [exact (Hletter false false false false "a" Ha)|].
  exact (Hwild false false false "n" Hn).
Defined.

(** X6. With questions as the only variant option and one position, the set
    is the seed and the 13 concatenations "seedQ" (suffix) or "Qseed"
    (prefix), for every seed. The forms with a space of the in-app help,
    "hey google what" and "what hey google" (lines 39, 45 and 51), are not
    generated. *)
Theorem question_variants_have_no_space (seed : string) (i : bool) :
  variant_set seed false false true false i true
  = list_to_set (seed :: ((λ qw, seed +:+ qw) <$> QUESTION_WORDS))
  ∧ variant_set seed false false true true i false
    = list_to_set (seed :: ((λ qw, qw +:+ seed) <$> QUESTION_WORDS))
  ∧ (∀ qw, qw ∈ QUESTION_WORDS →
       seed +:+ " " +:+ qw ∉ variant_set seed false false true false i true)
  ∧ (∀ qw, qw ∈ QUESTION_WORDS →
       qw +:+ " " +:+ seed ∉ variant_set seed false false true true i false).
Proof.
  assert (variant_set seed false false true false i true
          = list_to_set (seed :: ((λ qw, seed +:+ qw) <$> QUESTION_WORDS))) as Hsuf.
  { rewrite variant_set_forms. reflexivity. }
  assert (variant_set seed false false true true i false
          = list_to_set (seed :: ((λ qw, qw +:+ seed) <$> QUESTION_WORDS))) as Hpre.
  { rewrite variant_set_forms. reflexivity. }
  split; [exact Hsuf|]. split; [exact Hpre|]. split.
  - intros qw Hqw. rewrite Hsuf, elem_of_list_to_set, elem_of_cons.
    intros [Heq|Hin].
    + apply (f_equal String.length) in Heq.
      rewrite length_append in Heq. simpl in Heq. lia.
    + apply list_elem_of_fmap in Hin as (qw' & Heq & Hqw').
      apply (inj (String.append seed)) in Heq. subst qw'.
      unfold QUESTION_WORDS in Hqw'.
      repeat (apply elem_of_cons in Hqw' as [Hqw'|Hqw']; [discriminate|]).
      by apply elem_of_nil in Hqw'.
  - intros qw Hqw. rewrite Hpre, elem_of_list_to_set, elem_of_cons.
    intros [Heq|Hin].
    + apply (f_equal String.length) in Heq.
      rewrite !length_append in Heq. simpl in Heq. lia.
    + apply list_elem_of_fmap in Hin as (qw' & Heq & Hqw').
      unfold QUESTION_WORDS in Hqw, Hqw'.
      repeat (apply elem_of_cons in Hqw as [->|Hqw];
              [repeat (apply elem_of_cons in Hqw' as [->|Hqw'];
                       [first [ by (apply (f_equal String.length) in Heq;
                                    rewrite !length_append in Heq;
                                    simpl in Heq; lia)
                              | by (simpl in Heq; discriminate) ]|]);
               by apply elem_of_nil in Hqw'|]).
      by apply elem_of_nil in Hqw.
Qed.

(** ** fetch_suggestions and the replies it lets through *)

(** A reply the [for] loop of line 212 can take: a failure of the request
    or of the JSON decoding, a JSON value that is not an array with a second
    element holding a number, a boolean or null. *)
Definition absorbed (o : http_outcome) : Prop :=
  match o with
  | Json (PyList (_ :: (PyNone | PyBool _ | PyInt _ | PyFloat _) :: _)) => False
  | _ => True
  end.

Lemma fetch_iterable_iff {World : Type}
    (http_get_json : string → string → string → World → http_outcome * World)
    query lang gl w :
  is_Some (py_iter (fetch_suggestions http_get_json query lang gl w).1.1)
  ↔ absorbed (http_get_json query lang gl w).1.
Proof.
  unfold fetch_suggestions.
  destruct (http_get_json query lang gl w) as [[|data] w']; simpl; [by split; eauto|].
  destruct data as [| | | |s|l|d]; simpl; try (by split; eauto).
  - destruct (1 <? String.length s)%nat; [|by split; eauto].
    destruct (String.get 1 s); simpl; by split; eauto.
  - destruct l as [|x0 [|x1 l]]; simpl; try (by split; eauto).
    destruct x1; simpl; split; try done; try (by eauto); by intros [? ?].
  - destruct (1 <? length d)%nat; by split; eauto.
Qed.

(** X7. The replies that make [run_scraper] raise are exactly the JSON
    arrays whose second element is a number, a boolean or null: when no
    reply is of that kind, every run returns its result set, whatever the
    seeds and the options; and every value [fetch_suggestions] returns can
    be iterated only if no reply is of that kind. *)
Theorem run_returns_unless_scalar_reply {World : Type}
    (http_get_json : string → string → string → World → http_outcome * World)
    (str_other : pyval → string) (L : set_listing) :
  ((∀ query lang gl w, absorbed (http_get_json query lang gl w).1)
   ↔ iterable_replies http_get_json)
  ∧ ((∀ query lang gl w, absorbed (http_get_json query lang gl w).1) →
     ∀ seeds_list lang gl max_per_variant l w q p i s world0,
     ∃ rows e',
       run_scraper http_get_json str_other L seeds_list lang gl max_per_variant
         l w q p i s world0 = (Ok rows, e')).
Proof.
  assert ((∀ query lang gl w, absorbed (http_get_json query lang gl w).1)
          ↔ iterable_replies http_get_json) as Hiff.
  { unfold iterable_replies. split; intros H query lang gl w.
    - by apply fetch_iterable_iff.
    - by apply fetch_iterable_iff. }
  split; [exact Hiff|].
  intros Habs seeds_list lang gl max_per_variant l w q p i s world0.
  apply Hiff in Habs.
  destruct (run_scraper_calls http_get_json str_other L seeds_list lang gl
              max_per_variant l w q p i s world0 Habs) as (rows & e' & Hrun & _).
  by exists rows, e'.
Qed.

(** A provider that fails on every request. *)
Definition failing_provider (query lang gl : string) (w : nat)
  : http_outcome * nat := (Fails, S w).

Lemma run_returns_unless_scalar_reply_witness :
  (∀ query lang gl w, absorbed (failing_provider query lang gl w).1)
  ∧ ∃ rows e',
      run_scraper failing_provider any_str elements_listing ["hey google"; "ok"]
        "en" "US" 20 true true true true true true 0%nat = (Ok rows, e').
Proof.
  assert (∀ query lang gl w, absorbed (failing_provider query lang gl w).1)
    as Habs by (intros; exact I).
  split; [exact Habs|].
  exact (proj2 (run_returns_unless_scalar_reply failing_provider any_str
                  elements_listing) Habs
           ["hey google"; "ok"] "en" "US" 20%Z
           true true true true true true 0%nat).
Defined.

(** ** run_scraper, whatever the provider does *)

Lemma calls_for_prefix i (log1 log2 : list (nat * string)) :
  log1 `prefix_of` log2 → (calls_for i log1 ≤ calls_for i log2)%nat.
Proof. intros [k ->]. rewrite calls_for_app. lia. Qed.

Lemma planned_calls_index L l w q p i s n k seeds j v :
  (j, v) ∈ planned_calls L l w q p i s n k seeds → (k ≤ j)%nat.
Proof.
  revert k. induction seeds as [|seed seeds IH]; intros k; simpl.
  - by intros ?%elem_of_nil.
  - intros [Hin|Hin]%elem_of_app.
    + apply list_elem_of_fmap in Hin as (v' & [= -> ->] & _). lia.
    + apply IH in Hin. lia.
Qed.

Lemma planned_calls_NoDup L l w q p i s n k seeds :
  NoDup (planned_calls L l w q p i s n k seeds).
Proof.
  revert k. induction seeds as [|seed seeds IH]; intros k; simpl.
  - constructor.
  - apply NoDup_app. split; [|split; [|apply IH]].
    + apply (NoDup_fmap_2 _).
      eapply sublist_NoDup; [apply list_of_NoDup|apply sublist_take].
    + intros [j v] Hin Hin'.
      apply list_elem_of_fmap in Hin as (v' & [= -> ->] & _).
      apply planned_calls_index in Hin'. lia.
Qed.

Section AnyRun.

Context {World : Type}.
Variable http_get_json : string → string → string → World → http_outcome * World.
Variable str_other : pyval → string.
Variable L : set_listing.

(** However the loop over the variants ends, it has fetched a prefix of
    the first [max_per_variant - count] variants, in order, and all of
    them when it ends normally. *)
Lemma variant_loop_log seed_idx seed lang gl max_per_variant variants count acc e r e' :
  variant_loop http_get_json str_other seed_idx seed lang gl max_per_variant
    variants count acc e = (r, e') →
  ∃ ext,
    fetch_log e' = (fetch_log e ++ ext)%list
    ∧ ext `prefix_of`
        ((λ v, (seed_idx, v)) <$> take (Z.to_nat (max_per_variant - count)) variants)
    ∧ (∀ acc', r = Ok acc' →
         ext = (λ v, (seed_idx, v)) <$> take (Z.to_nat (max_per_variant - count)) variants).
Proof.
  revert count acc e.
  induction variants as [|v vs IH]; intros count acc e; simpl.
  - intros [= <- <-]. exists []. rewrite app_nil_r, take_nil. by split.
  - destruct (Z.leb_spec max_per_variant count) as [Hle|Hlt].
    + intros [= <- <-]. exists [].
      replace (Z.to_nat (max_per_variant - count)) with 0%nat by lia.
      rewrite app_nil_r. by split.
    + replace (Z.to_nat (max_per_variant - count))
        with (S (Z.to_nat (max_per_variant - (count + 1)))) by lia.
      destruct (fetch_suggestions http_get_json v lang gl (world e))
        as [[suggestions warned] w'].
      destruct (py_iter suggestions) as [items|].
      * intros Hloop. apply IH in Hloop as (ext & Hlog & Hpre & Hok).
        exists ((seed_idx, v) :: ext). simpl in Hlog.
        split; [by rewrite Hlog, <- app_assoc|].
        split; [by apply prefix_cons|].
        intros acc' Hr. by rewrite (Hok acc' Hr).
      * intros [= <- <-]. exists [(seed_idx, v)]. simpl.
        split; [done|]. split; [|done].
        apply prefix_cons, prefix_nil.
Qed.

Lemma seed_loop_log seed_idx seeds lang gl max_per_variant l w q p i s acc e r e' :
  seed_loop http_get_json str_other L seed_idx seeds lang gl max_per_variant
    l w q p i s acc e = (r, e') →
  ∃ ext,
    fetch_log e' = (fetch_log e ++ ext)%list
    ∧ ext `prefix_of`
        planned_calls L l w q p i s (Z.to_nat max_per_variant) seed_idx seeds
    ∧ (∀ acc', r = Ok acc' →
         ext = planned_calls L l w q p i s (Z.to_nat max_per_variant) seed_idx seeds).
Proof.
  revert seed_idx acc e.
  induction seeds as [|seed seeds IH]; intros seed_idx acc e; simpl.
  - intros [= <- <-]. exists []. by rewrite app_nil_r.
  - destruct (variant_loop _ _ _ _ _ _ _ _ _ _ _) as [r1 e1] eqn:E1.
    apply variant_loop_log in E1 as (ext1 & Hlog1 & Hpre1 & Hok1).
    rewrite Z.sub_0_r in Hpre1, Hok1.
    destruct r1 as [acc1|x].
    + intros Hloop. apply IH in Hloop as (ext2 & Hlog2 & Hpre2 & Hok2).
      rewrite (Hok1 acc1 eq_refl) in Hlog1.
      eexists (_ ++ ext2)%list.
      split; [by rewrite Hlog2, Hlog1, <- app_assoc|].
      split; [by apply prefix_app|].
      intros acc' Hr. by rewrite (Hok2 acc' Hr).
    + intros [= <- <-]. exists ext1. split; [done|]. split; [|done].
      by apply prefix_app_r.
Qed.

End AnyRun.

(** X8. Whether a run returns or raises, its fetches are an initial part of
    the plan: seed by seed in the order of the list, for each seed the first
    [max_per_variant] entries of its variant list in order. So no seed gets
    more than [max_per_variant] fetches or more than it has variants, and
    no variant is fetched twice for the same position of the seed list. *)
Theorem fetches_follow_plan {World : Type}
    (http_get_json : string → string → string → World → http_outcome * World)
    (str_other : pyval → string) (L : set_listing)
    (seeds_list : list string) (lang gl : string) (max_per_variant : Z)
    (l w q p i s : bool) (world0 : World) :
  let log :=
    fetch_log (run_scraper http_get_json str_other L seeds_list lang gl
                 max_per_variant l w q p i s world0).2 in
  log `prefix_of` planned_calls L l w q p i s (Z.to_nat max_per_variant) 0 seeds_list
  ∧ NoDup log
  ∧ (∀ idx seed, seeds_list !! idx = Some seed →
       (calls_for idx log
        ≤ Z.to_nat max_per_variant `min` length (generate_variants L seed l w q p i s))%nat)
  ∧ (∀ idx, seeds_list !! idx = None → calls_for idx log = 0%nat).
Proof.
  intros log.
  assert (log `prefix_of`
            planned_calls L l w q p i s (Z.to_nat max_per_variant) 0 seeds_list) as Hpre.
  { unfold log, run_scraper.
    destruct (seed_loop _ _ _ _ _ _ _ _ _ _ _ _ _ _ _ _) as [r e'] eqn:E.
    apply seed_loop_log in E as (ext & Hlog & Hpre & _). simpl in Hlog.
    by destruct r; simpl; rewrite Hlog. }
  split; [exact Hpre|]. split.
  - destruct Hpre as [k Hk].
    pose proof (planned_calls_NoDup L l w q p i s (Z.to_nat max_per_variant) 0 seeds_list) as Hnd.
    rewrite Hk in Hnd. by apply NoDup_app in Hnd as [? _].
  - split.
    + intros idx seed Hidx.
      etrans; [by apply calls_for_prefix|].
      rewrite calls_for_planned, decide_True by lia.
      rewrite Nat.sub_0_r, Hidx. simpl. by rewrite length_take.
    + intros idx Hidx.
      pose proof (calls_for_prefix idx _ _ Hpre) as Hle.
      rewrite calls_for_planned, decide_True in Hle by lia.
      rewrite Nat.sub_0_r, Hidx in Hle. simpl in Hle. lia.
Qed.

(** X9. With no seed, or with a cap that is zero or negative, nothing is
    fetched and the result set is empty. *)
Theorem nothing_to_fetch {World : Type}
    (http_get_json : string → string → string → World → http_outcome * World)
    (str_other : pyval → string) (L : set_listing)
    (seeds_list : list string) (lang gl : string) (max_per_variant : Z)
    (l w q p i s : bool) (world0 : World) :
  seeds_list = [] ∨ (max_per_variant ≤ 0)%Z →
  run_scraper http_get_json str_other L seeds_list lang gl max_per_variant
    l w q p i s world0 = (Ok [], Env world0 [] []).
Proof.
  intros [->|Hcap]; [reflexivity|].
  unfold run_scraper.
  assert (∀ seeds k acc e,
            seed_loop http_get_json str_other L k seeds lang gl max_per_variant
              l w q p i s acc e = (Ok acc, e)) as Hloop.
  { induction seeds as [|seed seeds IH]; intros k acc e; simpl; [done|].
    destruct (generate_variants L seed l w q p i s) as [|v vs]; simpl.
    - apply IH.
    - destruct (Z.leb_spec max_per_variant 0); [apply IH|lia]. }
  by rewrite Hloop.
Qed.

Lemma nothing_to_fetch_witness :
  run_scraper echo_provider any_str elements_listing ["hey google"; "ok google"]
    "en" "US" 0 true true true true true true tt = (Ok [], Env tt [] []).
Proof.
  apply (nothing_to_fetch echo_provider any_str elements_listing
           ["hey google"; "ok google"] "en" "US" 0
           true true true true true true tt).
  right. lia.
Defined.

(** ** The rows of a run *)

Section Rows.

Context {World : Type}.
Variable http_get_json : string → string → string → World → http_outcome * World.
Variable str_other : pyval → string.
Variable L : set_listing.

(** The key of line 213 for a seed and a suggestion. *)
Definition dedup_key (seed : string) (suggestion : pyval) : string :=
  seed +:+ "|||" +:+ py_format str_other suggestion.

(** [seen] holds the keys of the rows collected so far, and no two of
    these rows have the same key. *)
Definition keyed (acc : collector) : Prop :=
  ∃ ts : list (string * string * pyval),
    all_results acc = (λ t, row t.1.1 t.1.2 t.2) <$> ts
    ∧ seen acc = list_to_set ((λ t, dedup_key t.1.1 t.2) <$> ts)
    ∧ NoDup ((λ t, dedup_key t.1.1 t.2) <$> ts).

Lemma suggestion_body_keyed seed variant acc suggestion :
  keyed acc → keyed (suggestion_body str_other seed variant acc suggestion).
Proof.
  intros (ts & Hrows & Hseen & Hnd). unfold suggestion_body. cbv zeta.
  fold (dedup_key seed suggestion).
  case_decide as Hin; [by exists ts|].
  exists (ts ++ [(seed, variant, suggestion)])%list. simpl.
  rewrite !fmap_app. simpl. split; [by rewrite Hrows|]. split.
  - rewrite Hseen, list_to_set_app_L. unfold add. simpl.
    by rewrite (right_id_L ∅ (∪)).
  - apply NoDup_app. split; [done|]. split; [|apply NoDup_singleton].
    intros k Hk ->%list_elem_of_singleton. apply Hin.
    rewrite Hseen. by apply elem_of_list_to_set.
Qed.

Lemma suggestions_keyed seed variant items acc :
  keyed acc → keyed (foldl (suggestion_body str_other seed variant) acc items).
Proof.
  revert acc. induction items as [|x items IH]; intros acc Hacc; simpl; [done|].
  by apply IH, suggestion_body_keyed.
Qed.

Lemma variant_loop_keyed seed_idx seed lang gl max_per_variant variants count acc e acc' e' :
  keyed acc →
  variant_loop http_get_json str_other seed_idx seed lang gl max_per_variant
    variants count acc e = (Ok acc', e') →
  keyed acc'.
Proof.
  revert count acc e.
  induction variants as [|v vs IH]; intros count acc e Hacc; simpl.
  - by intros [= <- _].
  - destruct (max_per_variant <=? count)%Z; [by intros [= <- _]|].
    destruct (fetch_suggestions http_get_json v lang gl (world e))
      as [[suggestions warned] w'].
    destruct (py_iter suggestions) as [items|]; [|done].
    apply IH. by apply suggestions_keyed.
Qed.

Lemma seed_loop_keyed seed_idx seeds lang gl max_per_variant l w q p i s acc e acc' e' :
  keyed acc →
  seed_loop http_get_json str_other L seed_idx seeds lang gl max_per_variant
    l w q p i s acc e = (Ok acc', e') →
  keyed acc'.
Proof.
  revert seed_idx acc e.
  induction seeds as [|seed seeds IH]; intros seed_idx acc e Hacc; simpl.
  - by intros [= <- _].
  - destruct (variant_loop _ _ _ _ _ _ _ _ _ _ _) as [[acc1|x] e1] eqn:E; [|done].
    apply IH. by eapply variant_loop_keyed.
Qed.

(** Where a row comes from: a seed of the list, a variant generated for
    that seed, and a fetch of that variant for that seed. *)
Definition sourced (seeds_list : list string) (l w q p i s : bool)
    (log : list (nat * string)) (r : pydict) : Prop :=
  ∃ idx seed variant suggestion,
    r = row seed variant suggestion
    ∧ seeds_list !! idx = Some seed
    ∧ variant ∈ variant_set seed l w q p i s
    ∧ (idx, variant) ∈ log.

Lemma sourced_mono seeds_list l w q p i s log log' r :
  log ⊆ log' → sourced seeds_list l w q p i s log r →
  sourced seeds_list l w q p i s log' r.
Proof.
  intros Hsub (idx & seed & variant & suggestion & -> & Hidx & Hv & Hlog).
  exists idx, seed, variant, suggestion. repeat split; try done. by apply Hsub.
Qed.

Lemma suggestions_sourced seeds_list l w q p i s log idx seed variant items acc :
  seeds_list !! idx = Some seed →
  variant ∈ variant_set seed l w q p i s →
  (idx, variant) ∈ log →
  Forall (sourced seeds_list l w q p i s log) (all_results acc) →
  Forall (sourced seeds_list l w q p i s log)
    (all_results (foldl (suggestion_body str_other seed variant) acc items)).
Proof.
  intros Hidx Hv Hlog. revert acc.
  induction items as [|x items IH]; intros acc Hacc; simpl; [done|].
  apply IH. unfold suggestion_body. cbv zeta. case_decide; [done|]. simpl.
  apply Forall_app. split; [done|]. apply Forall_singleton.
  by exists idx, seed, variant, x.
Qed.

Lemma variant_loop_sourced seeds_list l w q p i s idx seed lang gl
    max_per_variant variants count acc e acc' e' :
  seeds_list !! idx = Some seed →
  Forall (λ v, v ∈ variant_set seed l w q p i s) variants →
  Forall (sourced seeds_list l w q p i s (fetch_log e)) (all_results acc) →
  variant_loop http_get_json str_other idx seed lang gl max_per_variant
    variants count acc e = (Ok acc', e') →
  Forall (sourced seeds_list l w q p i s (fetch_log e')) (all_results acc').
Proof.
  intros Hidx. revert count acc e.
  induction variants as [|v vs IH]; intros count acc e Hvs Hacc; simpl.
  - by intros [= <- <-].
  - destruct (max_per_variant <=? count)%Z; [by intros [= <- <-]|].
    destruct (fetch_suggestions http_get_json v lang gl (world e))
      as [[suggestions warned] w'].
    destruct (py_iter suggestions) as [items|]; [|done].
    apply Forall_cons in Hvs as [Hv Hvs].
    apply IH; [done|]. simpl.
    apply (suggestions_sourced seeds_list l w q p i s _ idx); [done|done|set_solver|].
    eapply Forall_impl; [exact Hacc|].
    intros r. apply sourced_mono. set_solver.
Qed.

Lemma seed_loop_sourced seeds_list l w q p i s idx seeds lang gl
    max_per_variant acc e acc' e' :
  (∀ j seed, seeds !! j = Some seed → seeds_list !! (idx + j)%nat = Some seed) →
  Forall (sourced seeds_list l w q p i s (fetch_log e)) (all_results acc) →
  seed_loop http_get_json str_other L idx seeds lang gl max_per_variant
    l w q p i s acc e = (Ok acc', e') →
  Forall (sourced seeds_list l w q p i s (fetch_log e')) (all_results acc').
Proof.
  revert idx acc e.
  induction seeds as [|seed seeds IH]; intros idx acc e Hseeds Hacc; simpl.
  - by intros [= <- <-].
  - destruct (variant_loop _ _ _ _ _ _ _ _ _ _ _) as [[acc1|x] e1] eqn:E; [|done].
    apply IH.
    + intros j seed' Hj. replace (S idx + j)%nat with (idx + S j)%nat by lia.
      by apply Hseeds.
    + eapply variant_loop_sourced; [| |exact Hacc|exact E].
      * rewrite <- (Nat.add_0_r idx). by apply Hseeds.
      * apply Forall_forall. intros v Hv.
        by apply list_of_elem in Hv.
Qed.

End Rows.

(** X10. No two rows of a result set have the same seed and suggestions with
    the same text ([str] of the suggestion): a suggestion is reported at
    most once per seed. *)
Theorem no_two_rows_for_a_pair {World : Type}
    (http_get_json : string → string → string → World → http_outcome * World)
    (str_other : pyval → string) (L : set_listing)
    (seeds_list : list string) (lang gl : string) (max_per_variant : Z)
    (l w q p i s : bool) (world0 : World) (rows : list pydict) (e' : env World) :
  run_scraper http_get_json str_other L seeds_list lang gl max_per_variant
    l w q p i s world0 = (Ok rows, e') →
  ∀ n m seed v1 v2 g1 g2,
    rows !! n = Some (row seed v1 g1) →
    rows !! m = Some (row seed v2 g2) →
    py_format str_other g1 = py_format str_other g2 →
    n = m.
Proof.
  unfold run_scraper.
  destruct (seed_loop _ _ _ _ _ _ _ _ _ _ _ _ _ _ _ _) as [[acc1|x] e1] eqn:E; [|done].
  intros [= <- _].
  assert (keyed str_other acc1) as (ts & Hrows & _ & Hnd).
  { eapply seed_loop_keyed; [|exact E]. exists [].
    split; [done|]. split; [done|constructor]. }
  intros n m seed v1 v2 g1 g2 Hn Hm Hfmt.
  rewrite Hrows in Hn, Hm.
  apply list_lookup_fmap_Some in Hn as (t1 & Ht1 & Hn).
  apply list_lookup_fmap_Some in Hm as (t2 & Ht2 & Hm).
  destruct t1 as [[s1 a1] b1], t2 as [[s2 a2] b2].
  unfold row in Ht1, Ht2. simpl in Ht1, Ht2.
  inversion Ht1; subst. inversion Ht2; subst.
  eapply (NoDup_lookup _ n m); [exact Hnd| |].
  - rewrite list_lookup_fmap, Hn. reflexivity.
  - rewrite list_lookup_fmap, Hm. simpl. unfold dedup_key.
    by rewrite Hfmt.
Qed.

(** A provider that answers every query with the same suggestion. *)
Definition constant_provider (query lang gl : string) (w : unit)
  : http_outcome * unit :=
  (Json (PyList [PyStr query; PyList [PyStr "set a timer"]]), w).

Lemma no_two_rows_for_a_pair_witness :
  run_scraper constant_provider any_str elements_listing ["hey google"] "en" "US" 20
    false true false false false true tt
  = (Ok [row "hey google" "hey google *" (PyStr "set a timer")],
     Env tt [(0%nat, "hey google *"); (0%nat, "hey google")] [])
  ∧ ∀ n m seed v1 v2 g1 g2,
      [row "hey google" "hey google *" (PyStr "set a timer")] !! n
      = Some (row seed v1 g1) →
      [row "hey google" "hey google *" (PyStr "set a timer")] !! m
      = Some (row seed v2 g2) →
      py_format any_str g1 = py_format any_str g2 →
      n = m.
Proof.
  assert (run_scraper constant_provider any_str elements_listing ["hey google"]
            "en" "US" 20 false true false false false true tt
          = (Ok [row "hey google" "hey google *" (PyStr "set a timer")],
             Env tt [(0%nat, "hey google *"); (0%nat, "hey google")] []))
    as Hrun by (vm_compute; reflexivity).
  split; [exact Hrun|].
  exact (no_two_rows_for_a_pair constant_provider any_str elements_listing
           ["hey google"] "en" "US" 20 false true false false false true tt
           _ _ Hrun).
Defined.

(** X11. Every row of a result set names a seed of the input list and a
    variant that [generate_variants] returned for that seed and that was
    fetched for it. *)
Theorem rows_come_from_fetches {World : Type}
    (http_get_json : string → string → string → World → http_outcome * World)
    (str_other : pyval → string) (L : set_listing)
    (seeds_list : list string) (lang gl : string) (max_per_variant : Z)
    (l w q p i s : bool) (world0 : World) (rows : list pydict) (e' : env World) :
  run_scraper http_get_json str_other L seeds_list lang gl max_per_variant
    l w q p i s world0 = (Ok rows, e') →
  Forall (λ r,
    ∃ idx seed variant suggestion,
      r = row seed variant suggestion
      ∧ seeds_list !! idx = Some seed
      ∧ variant ∈ generate_variants L seed l w q p i s
      ∧ (idx, variant) ∈ fetch_log e') rows.
Proof.
  unfold run_scraper.
  destruct (seed_loop _ _ _ _ _ _ _ _ _ _ _ _ _ _ _ _) as [[acc1|x] e1] eqn:E; [|done].
  intros [= <- <-].
  eapply Forall_impl.
  - eapply (seed_loop_sourced http_get_json str_other L seeds_list);
      [| |exact E]; [by intros j seed Hj|constructor].
  - intros r (idx & seed & variant & suggestion & -> & Hidx & Hv & Hlog).
    exists idx, seed, variant, suggestion. repeat split; try done.
    by apply list_of_elem.
Qed.

Lemma rows_come_from_fetches_witness :
  run_scraper constant_provider any_str elements_listing ["hey google"] "en" "US" 20
    false true false false false true tt
  = (Ok [row "hey google" "hey google *" (PyStr "set a timer")],
     Env tt [(0%nat, "hey google *"); (0%nat, "hey google")] [])
  ∧ Forall (λ r,
      ∃ idx seed variant suggestion,
        r = row seed variant suggestion
        ∧ ["hey google"] !! idx = Some seed
        ∧ variant ∈ generate_variants elements_listing seed
                      false true false false false true
        ∧ (idx, variant) ∈ [(0%nat, "hey google *"); (0%nat, "hey google")])
      [row "hey google" "hey google *" (PyStr "set a timer")].
Proof.
  assert (run_scraper constant_provider any_str elements_listing ["hey google"]
            "en" "US" 20 false true false false false true tt
          = (Ok [row "hey google" "hey google *" (PyStr "set a timer")],
             Env tt [(0%nat, "hey google *"); (0%nat, "hey google")] []))
    as Hrun by (vm_compute; reflexivity).
  split; [exact Hrun|].
  exact (rows_come_from_fetches constant_provider any_str elements_listing
           ["hey google"] "en" "US" 20 false true false false false true tt
           _ _ Hrun).
Defined.

(** ** The seeds read from the text area *)

Lemma str_join_cons2 sep w w2 ws :
  str_join sep (w :: w2 :: ws) = w +:+ sep +:+ str_join sep (w2 :: ws).
Proof. reflexivity. Qed.

Lemma str_split_join sep (ws : list string) :
  ws ≠ [] → Forall (λ w, sep ∉ chars w) ws →
  str_split sep (str_join (String sep "") ws) = ws.
Proof.
  induction ws as [|w ws IH]; [done|]. intros _ Hws.
  apply Forall_cons in Hws as [Hw Hws].
  destruct ws as [|w2 ws].
  - by apply str_split_single.
  - rewrite str_join_cons2.
    change (String sep "" +:+ str_join (String sep "") (w2 :: ws))
      with (String sep (str_join (String sep "") (w2 :: ws))).
    rewrite (str_split_first sep w _ Hw). f_equal. by apply IH.
Qed.

(** X12. Seeds that are already clean (not empty, nothing to strip, no line
    break inside) and are entered one per line are read back unchanged and
    in order. *)
Theorem clean_seeds_round_trip (seeds : list string) :
  Forall (λ seed, seed ≠ "" ∧ strip seed = seed ∧ LF ∉ chars seed) seeds →
  parse_seeds (str_join (String LF "") seeds) = seeds.
Proof.
  intros Hseeds. destruct seeds as [|seed seeds]; [reflexivity|].
  unfold parse_seeds.
  rewrite str_split_join; [|done|].
  - generalize dependent (seed :: seeds). clear. intros ws Hws.
    induction Hws as [|w ws (Hne & Hstrip & _) _ IH]; [done|].
    rewrite filter_cons_True by (by rewrite Hstrip).
    rewrite fmap_cons, IH. by rewrite Hstrip.
  - eapply Forall_impl; [exact Hseeds|]. by intros w (_ & _ & Hlf).
Qed.

Lemma clean_seeds_round_trip_witness :
  parse_seeds (str_join (String LF "") ["hey google"; "ok google"])
  = ["hey google"; "ok google"].
Proof.
  apply (clean_seeds_round_trip ["hey google"; "ok google"]).
  repeat constructor; try by_eval; vm_compute; reflexivity.
Defined.

(** ** The stored results and their display (app.py, lines 248-284) *)

(** The whole of the button handler: what [run_button] does, then lines
    248-251. [session] is [st.session_state.get('results_df')]; the second
    component lists the messages of [st.error] and [st.warning]. An
    exception of [run_scraper] ends the script run before anything is
    stored. *)
Definition on_click {World : Type}
    (http_get_json : string → string → string → World → http_outcome * World)
    (str_other : pyval → string) (L : set_listing)
    (seeds_input lang gl : string) (max_per_variant : Z)
    (use_letters use_wildcards use_questions
     use_prefix use_infix use_suffix : bool)
    (session : option (list pydict)) (w : World)
  : option (list pydict) * list string * env World :=
  match run_button http_get_json str_other L seeds_input lang gl max_per_variant
          use_letters use_wildcards use_questions
          use_prefix use_infix use_suffix w with
  | (Rejected message, e) => (session, [message], e)
  | (Ran (Raised _), e) => (session, [], e)
  | (Ran (Ok []), e) =>
      (session, ["No results found. Try adjusting your parameters."], e)
  | (Ran (Ok (r :: df)), e) => (Some (r :: df), [], e)
  end.

(** The table the results section shows (line 254): the stored one, when
    there is one and it is not empty. *)
Definition displayed (session : option (list pydict)) : option (list pydict) :=
  match session with
  | Some (r :: df) => Some (r :: df)
  | Some [] | None => None
  end.

(** The strings of the column [seed]. *)
Definition seed_column (df : list pydict) : list string :=
  omap (λ r, match dict_get "seed" r with
             | Some (PyStr seed) => Some seed
             | _ => None
             end) df.

(** [len(df)] and [df['seed'].nunique()] (lines 280-284). *)
Definition total_suggestions (df : list pydict) : nat := length df.
Definition unique_seeds (df : list pydict) : nat :=
  size (list_to_set (seed_column df) : gset string).

(** What is stored is a table of rows of [run_scraper], if anything. *)
Definition stored_ok (session : option (list pydict)) : Prop :=
  match session with
  | Some df => rows_wellformed df
  | None => True
  end.

Lemma seed_column_length df : (length (seed_column df) ≤ length df)%nat.
Proof.
  unfold seed_column. induction df as [|r df IH]; [simpl; lia|].
  change (r :: df) with ([r] ++ df)%list. rewrite omap_app, !length_app.
  assert (length (omap (λ r, match dict_get "seed" r with
                             | Some (PyStr seed) => Some seed
                             | _ => None
                             end) [r]) ≤ 1)%nat;
    [|change (length [r]) with 1%nat; lia].
  cbn [omap list_omap].
  destruct (dict_get "seed" r) as [[]|]; simpl; lia.
Qed.

Lemma unique_seeds_bounds r df :
  rows_wellformed (r :: df) →
  (1 ≤ unique_seeds (r :: df) ≤ total_suggestions (r :: df))%nat.
Proof.
  intros Hrows. unfold unique_seeds, total_suggestions. split.
  - apply Forall_cons in Hrows as [(seed & variant & suggestion & ->) _].
    assert (seed ∈ (list_to_set (seed_column (row seed variant suggestion :: df))
                    : gset string)) as Hin.
    { apply elem_of_list_to_set. unfold seed_column. simpl. left. }
    assert (size (list_to_set (seed_column (row seed variant suggestion :: df))
                  : gset string) ≠ 0)%nat; [|lia].
    apply size_non_empty_iff. intros Hempty. rewrite Hempty in Hin.
    by apply not_elem_of_empty in Hin.
  - etrans; [apply size_list_to_set_le|apply seed_column_length].
Qed.

(** X13. What a click leaves in the session. With no seed after trimming,
    the stored table is untouched. With at least one seed, a run that
    returns at least one row stores exactly the rows it returned, in place
    of whatever was stored; a run that raises or returns no row leaves the
    stored table untouched. In every case what is stored is a table of
    rows of [run_scraper], and a displayed table has at least one seed and
    no more seeds than rows, so the average of line 284 never divides by
    zero. *)
Theorem click_keeps_or_replaces_results {World : Type}
    (http_get_json : string → string → string → World → http_outcome * World)
    (str_other : pyval → string) (L : set_listing)
    (seeds_input lang gl : string) (max_per_variant : Z)
    (l w q p i s : bool) (session : option (list pydict)) (world0 : World) :
  stored_ok session →
  let run :=
    run_scraper http_get_json str_other L (parse_seeds seeds_input)
      lang gl max_per_variant l w q p i s world0 in
  let session' :=
    (on_click http_get_json str_other L seeds_input lang gl max_per_variant
       l w q p i s session world0).1.1 in
  stored_ok session'
  ∧ session' = match parse_seeds seeds_input, run.1 with
               | _ :: _, Ok (r :: df) => Some (r :: df)
               | _, _ => session
               end
  ∧ (parse_seeds seeds_input = [] → session' = session)
  ∧ (∀ x, run.1 = Raised x → session' = session)
  ∧ (run.1 = Ok [] → session' = session)
  ∧ (parse_seeds seeds_input ≠ [] →
     ∀ r df, run.1 = Ok (r :: df) → session' = Some (r :: df))
  ∧ (∀ df, displayed session' = Some df →
       (1 ≤ unique_seeds df ≤ total_suggestions df)%nat).
Proof.
  intros Hok run session'.
  assert (session' = match parse_seeds seeds_input, run.1 with
                     | _ :: _, Ok (r :: df) => Some (r :: df)
                     | _, _ => session
                     end) as Hcases.
  { unfold session', run, on_click, run_button. cbv zeta.
    destruct (parse_seeds seeds_input) as [|seed seeds]; [reflexivity|].
    by destruct (run_scraper _ _ _ _ _ _ _ _ _ _ _ _ _ _) as [[[|r df]|x] e']. }
  assert (stored_ok session') as Hok'.
  { rewrite Hcases. destruct (parse_seeds seeds_input) as [|seed seeds]; [exact Hok|].
    subst run. destruct (run_scraper _ _ _ _ _ _ _ _ _ _ _ _ _ _)
      as [[[|r df]|x] e'] eqn:E; simpl; try exact Hok.
    by eapply run_scraper_rows. }
  split; [exact Hok'|]. split; [exact Hcases|].
  split; [intros Hnone; rewrite Hcases, Hnone; reflexivity|].
  split.
  { intros x Hx. rewrite Hcases, Hx. by destruct (parse_seeds seeds_input). }
  split.
  { intros Hx. rewrite Hcases, Hx. by destruct (parse_seeds seeds_input). }
  split.
  { intros Hsome r df Hx. rewrite Hcases, Hx.
    by destruct (parse_seeds seeds_input). }
  intros df Hdf. unfold displayed in Hdf.
  destruct session' as [[|r df']|]; try done.
  injection Hdf as <-. by apply unique_seeds_bounds.
Qed.

(** An older table, as a run on "ok google" once stored it. *)
Definition older_table : list pydict :=
  [row "ok google" "ok google" (PyStr "ok google maps")].

(** A click on the seed "hey google" with every option off: when the
    provider answers, the older table is replaced by the one new row; when
    every fetch fails, the older table stays. *)
Lemma click_keeps_or_replaces_results_witness :
  stored_ok (Some older_table)
  ∧ (on_click echo_provider any_str elements_listing "hey google" "en" "US" 20
       false false false false false false (Some older_table) tt).1.1
    = Some [row "hey google" "hey google" (PyStr "hey google now")]
  ∧ (on_click failing_provider any_str elements_listing "hey google" "en" "US" 20
       false false false false false false (Some older_table) 0%nat).1.1
    = Some older_table.
Proof.
  assert (stored_ok (Some older_table)) as Hok.
  { apply Forall_singleton. by eexists _, _, _. }
  split; [exact Hok|]. split.
  - destruct (click_keeps_or_replaces_results echo_provider any_str
                elements_listing "hey google" "en" "US" 20
                false false false false false false _ tt Hok)
      as (_ & _ & _ & _ & _ & Hstore & _).
    apply Hstore; [vm_compute; discriminate|vm_compute; reflexivity].
  - destruct (click_keeps_or_replaces_results failing_provider any_str
                elements_listing "hey google" "en" "US" 20
                false false false false false false _ 0%nat Hok)
      as (_ & _ & _ & _ & Hnone & _).
    apply Hnone. vm_compute. reflexivity.
Defined.
